(** * portal3d: transform algebra and triangle rasterizer

    A shallow embedding of [src/matrix.c], [src/triangle.c] and
    [src/array.c].

    The C type [float] is IEEE 754 binary32 and [double] is binary64; both are
    modelled bit-exactly (NaN payloads apart) with the executable
    specification of [SpecFloat], rounding to nearest, ties to even.
    Expressions are evaluated in the precision of their C type
    (FLT_EVAL_METHOD 0), one rounding per operation (no contraction into
    fused multiply-adds).  [int] is a 32-bit two's complement integer,
    carried as a [Z] with its wrap-around written out where the source
    computes; a call of triangle.c that does not return, because an integer
    division faults or because a loop counter passes [INT_MAX], has the
    outcome [stops].  The functions of display.c, upng.c, vector.c and <math.h>
    that these files call are parameters of the definitions that use
    them, except the two helpers of vector.c that are modelled from the
    specification; so is the outcome of [malloc] and [realloc] in
    array.c. *)

From Stdlib Require Import ZArith List Bool Lia Permutation.
From Stdlib Require Import Floats.SpecFloat.
Import ListNotations.
Local Open Scope Z_scope.

Set Implicit Arguments.

(** ** Machine numbers *)

(** [int]: results of arithmetic are reduced to the signed 32-bit range. *)
Module Int.
Definition min_signed : Z := - 2 ^ 31.
Definition max_signed : Z := 2 ^ 31 - 1.
Definition wrap (n : Z) : Z := (n + 2 ^ 31) mod 2 ^ 32 - 2 ^ 31.
Definition in_range (n : Z) : Prop := min_signed <= n <= max_signed.
Definition sub (a b : Z) : Z := wrap (a - b).
Definition add (a b : Z) : Z := wrap (a + b).
Definition mul (a b : Z) : Z := wrap (a * b).
(** [abs] of <stdlib.h>; [abs(INT_MIN)] wraps back to [INT_MIN]. *)
Definition abs (a : Z) : Z := wrap (Z.abs a).
(** [a % b] truncates toward zero, like [Z.rem].  It is an integer division:
    for [b = 0], and for [INT_MIN % -1], the processor raises a fault and
    there is no result. *)
Definition rem (a b : Z) : option Z :=
  if (b =? 0) || ((a =? min_signed) && (b =? -1)) then None
  else Some (Z.rem a b).
End Int.

(** [float]: IEEE 754 binary32. *)
Module F32.
Definition prec : Z := 24.
Definition emax : Z := 128.
Definition add : spec_float -> spec_float -> spec_float := SFadd prec emax.
Definition sub : spec_float -> spec_float -> spec_float := SFsub prec emax.
Definition mul : spec_float -> spec_float -> spec_float := SFmul prec emax.
Definition div : spec_float -> spec_float -> spec_float := SFdiv prec emax.
Definition opp : spec_float -> spec_float := SFopp.
Definition ltb : spec_float -> spec_float -> bool := SFltb.
Definition eqb : spec_float -> spec_float -> bool := SFeqb.
Definition neb (a b : spec_float) : bool := negb (SFeqb a b).
(** The members of the format among the values of [spec_float]. *)
Definition valid : spec_float -> bool := valid_binary prec emax.
(** Conversion of an integer, rounded when it has too many digits. *)
Definition of_Z (n : Z) : spec_float := binary_normalize prec emax n 0 false.
(** Conversion from the other format: the value is rounded into this one. *)
Definition of_float (x : spec_float) : spec_float :=
  match x with
  | S754_finite s m e => binary_normalize prec emax (cond_Zopp s (Zpos m)) e s
  | _ => x
  end.
Definition zero : spec_float := S754_zero false.
Definition one : spec_float := Eval vm_compute in of_Z 1.
End F32.

(** [double]: IEEE 754 binary64. *)
Module F64.
Definition prec : Z := 53.
Definition emax : Z := 1024.
Definition add : spec_float -> spec_float -> spec_float := SFadd prec emax.
Definition sub : spec_float -> spec_float -> spec_float := SFsub prec emax.
Definition mul : spec_float -> spec_float -> spec_float := SFmul prec emax.
Definition div : spec_float -> spec_float -> spec_float := SFdiv prec emax.
Definition opp : spec_float -> spec_float := SFopp.
Definition ltb : spec_float -> spec_float -> bool := SFltb.
Definition eqb : spec_float -> spec_float -> bool := SFeqb.
Definition neb (a b : spec_float) : bool := negb (SFeqb a b).
(** The members of the format among the values of [spec_float]. *)
Definition valid : spec_float -> bool := valid_binary prec emax.
(** Conversion of an integer, rounded when it has too many digits. *)
Definition of_Z (n : Z) : spec_float := binary_normalize prec emax n 0 false.
(** Conversion from the other format: the value is rounded into this one. *)
Definition of_float (x : spec_float) : spec_float :=
  match x with
  | S754_finite s m e => binary_normalize prec emax (cond_Zopp s (Zpos m)) e s
  | _ => x
  end.
Definition zero : spec_float := S754_zero false.
Definition one : spec_float := Eval vm_compute in of_Z 1.
End F64.

Definition float : Type := spec_float.
Definition double : Type := spec_float.

Declare Scope f32_scope.
Delimit Scope f32_scope with f32.
Infix "+" := F32.add : f32_scope.
Infix "-" := F32.sub : f32_scope.
Infix "*" := F32.mul : f32_scope.
Infix "/" := F32.div : f32_scope.
Notation "- x" := (F32.opp x) : f32_scope.
Infix "<?" := F32.ltb : f32_scope.

Declare Scope f64_scope.
Delimit Scope f64_scope with f64.
Infix "+" := F64.add : f64_scope.
Infix "-" := F64.sub : f64_scope.
Infix "*" := F64.mul : f64_scope.
Infix "/" := F64.div : f64_scope.

(** The value of a finite float as an integer mantissa and a binary exponent. *)
Definition signed_mantissa (s : bool) (m : positive) : Z := cond_Zopp s (Zpos m).

(** [(int) x] for a float [x]: the fractional part is discarded (rounding
    toward zero).  A NaN, an infinity or a value outside the range of [int]
    is undefined in ISO C; the model returns [INT_MIN], the "integer
    indefinite" that the conversion instruction of x86-64 produces. *)
Definition int_of_float (x : float) : Z :=
  match x with
  | S754_zero _ => 0
  | S754_finite s m e =>
      let n := match e with
               | Zneg p => Z.quot (signed_mantissa s m) (2 ^ Zpos p)
               | _ => signed_mantissa s m * 2 ^ e
               end in
      if (Int.min_signed <=? n) && (n <=? Int.max_signed) then n
      else Int.min_signed
  | _ => Int.min_signed
  end.

(** The floor of a float, for comparison with [int_of_float]: the greatest
    integer not above the value ([None] where there is none). *)
Definition floor_of_float (x : float) : option Z :=
  match x with
  | S754_zero _ => Some 0
  | S754_finite s m e =>
      Some match e with
           | Zneg p => Z.div (signed_mantissa s m) (2 ^ Zpos p)
           | _ => signed_mantissa s m * 2 ^ e
           end
  | _ => None
  end.

(** ** Vectors and matrices (vector.h, matrix.h) *)

Record vec2_t := mk_vec2 { vec2_x : float; vec2_y : float }.
Record vec3_t := mk_vec3 { vec3_x : float; vec3_y : float; vec3_z : float }.
Record vec4_t := mk_vec4
  { vec4_x : float; vec4_y : float; vec4_z : float; vec4_w : float }.
Record tex2_t := mk_tex2 { tex2_u : float; tex2_v : float }.

(** An index of [float m[4][4]]: the source only uses 0, 1, 2 and 3. *)
Inductive idx := I0 | I1 | I2 | I3.

Definition all_idx : list idx := [I0; I1; I2; I3].

Record row4 := mk_row4 { c0 : float; c1 : float; c2 : float; c3 : float }.
Record mat4_t := mk_mat4 { r0 : row4; r1 : row4; r2 : row4; r3 : row4 }.

Definition row_get (r : row4) (j : idx) : float :=
  match j with I0 => c0 r | I1 => c1 r | I2 => c2 r | I3 => c3 r end.

Definition row_set (r : row4) (j : idx) (v : float) : row4 :=
  match j with
  | I0 => mk_row4 v (c1 r) (c2 r) (c3 r)
  | I1 => mk_row4 (c0 r) v (c2 r) (c3 r)
  | I2 => mk_row4 (c0 r) (c1 r) v (c3 r)
  | I3 => mk_row4 (c0 r) (c1 r) (c2 r) v
  end.

Definition mat_row (a : mat4_t) (i : idx) : row4 :=
  match i with I0 => r0 a | I1 => r1 a | I2 => r2 a | I3 => r3 a end.

(** [a.m[i][j]] *)
Definition mat_get (a : mat4_t) (i j : idx) : float := row_get (mat_row a i) j.

(** [a.m[i][j] = v] *)
Definition mat_set (a : mat4_t) (i j : idx) (v : float) : mat4_t :=
  match i with
  | I0 => mk_mat4 (row_set (r0 a) j v) (r1 a) (r2 a) (r3 a)
  | I1 => mk_mat4 (r0 a) (row_set (r1 a) j v) (r2 a) (r3 a)
  | I2 => mk_mat4 (r0 a) (r1 a) (row_set (r2 a) j v) (r3 a)
  | I3 => mk_mat4 (r0 a) (r1 a) (r2 a) (row_set (r3 a) j v)
  end.

Notation "a .[ i , j ]" := (mat_get a i j)
  (at level 1, left associativity, format "a .[ i , j ]").

(** A row written as an initializer list of [int] constants. *)
Definition row_of_ints (a b c d : Z) : row4 :=
  mk_row4 (F32.of_Z a) (F32.of_Z b) (F32.of_Z c) (F32.of_Z d).

(** ** matrix.c *)

Definition mat4_identity : mat4_t :=
  mk_mat4 (row_of_ints 1 0 0 0) (row_of_ints 0 1 0 0)
          (row_of_ints 0 0 1 0) (row_of_ints 0 0 0 1).

Definition mat4_make_scale (sx sy sz : float) : mat4_t :=
  let matrix := mat4_identity in
  let matrix := mat_set matrix I0 I0 sx in
  let matrix := mat_set matrix I1 I1 sy in
  let matrix := mat_set matrix I2 I2 sz in
  matrix.

Definition mat4_mul_vec4 (m : mat4_t) (v : vec4_t) : vec4_t :=
  let line (i : idx) : float :=
    ((m.[i,I0] * vec4_x v) + (m.[i,I1] * vec4_y v) + (m.[i,I2] * vec4_z v) +
     (m.[i,I3] * vec4_w v))%f32 in
  mk_vec4 (line I0) (line I1) (line I2) (line I3).

Definition mat4_make_translation (tx ty tz : float) : mat4_t :=
  let matrix := mat4_identity in
  let matrix := mat_set matrix I0 I3 tx in
  let matrix := mat_set matrix I1 I3 ty in
  let matrix := mat_set matrix I2 I3 tz in
  matrix.

(** [mat4_mul_mat4]: the two nested loops assign every entry of [result],
    whose initial (indeterminate) content is passed as [junk]. *)
Definition mat4_mul_mat4_from (junk a b : mat4_t) : mat4_t :=
  fold_left (fun result i =>
    fold_left (fun result j =>
      mat_set result i j
        ((a.[i,I0] * b.[I0,j]) + (a.[i,I1] * b.[I1,j]) +
         (a.[i,I2] * b.[I2,j]) + (a.[i,I3] * b.[I3,j]))%f32)
      all_idx result)
    all_idx junk.

Definition mat4_zero : mat4_t :=
  mk_mat4 (row_of_ints 0 0 0 0) (row_of_ints 0 0 0 0)
          (row_of_ints 0 0 0 0) (row_of_ints 0 0 0 0).

Definition mat4_mul_mat4 (a b : mat4_t) : mat4_t :=
  mat4_mul_mat4_from mat4_zero a b.

Section Libm.
(** [cos], [sin] and [tan] of <math.h>, on [double]. *)
Variables cos sin tan : double -> double.

(** [float c = cos(angle)]: the argument is promoted to [double] and the
    result is rounded back to [float]. *)
Definition cosf_of (angle : float) : float := F32.of_float (cos (F64.of_float angle)).
Definition sinf_of (angle : float) : float := F32.of_float (sin (F64.of_float angle)).

Definition mat4_make_rotation_z (angle : float) : mat4_t :=
  let c := cosf_of angle in
  let s := sinf_of angle in
  let matrix := mat4_identity in
  let matrix := mat_set matrix I0 I0 c in
  let matrix := mat_set matrix I0 I1 (- s)%f32 in
  let matrix := mat_set matrix I1 I0 s in
  let matrix := mat_set matrix I1 I1 c in
  matrix.

Definition mat4_make_rotation_x (angle : float) : mat4_t :=
  let c := cosf_of angle in
  let s := sinf_of angle in
  let matrix := mat4_identity in
  let matrix := mat_set matrix I1 I1 c in
  let matrix := mat_set matrix I1 I2 (- s)%f32 in
  let matrix := mat_set matrix I2 I1 s in
  let matrix := mat_set matrix I2 I2 c in
  matrix.

Definition mat4_make_rotation_y (angle : float) : mat4_t :=
  let c := cosf_of angle in
  let s := sinf_of angle in
  let matrix := mat4_identity in
  let matrix := mat_set matrix I0 I0 c in
  let matrix := mat_set matrix I0 I2 s in
  let matrix := mat_set matrix I2 I0 (- s)%f32 in
  let matrix := mat_set matrix I2 I2 c in
  matrix.

(** [tan(fov / 2)]: the division is a [float] division, its result is
    promoted to [double] for the call. *)
Definition tan_half (fov : float) : double :=
  tan (F64.of_float (fov / F32.of_Z 2)%f32).

(** The right-hand sides of the assignments to [m[0][0]] and [m[1][1]] are
    [double] expressions, rounded to [float] by the assignment. *)
Definition mat4_make_perspective (fov aspect_ratio znear zfar : float) : mat4_t :=
  let result := mat4_zero in
  let result := mat_set result I0 I0
    (F32.of_float (F64.of_float aspect_ratio * (F64.of_Z 1 / tan_half fov))%f64) in
  let result := mat_set result I1 I1
    (F32.of_float (F64.of_Z 1 / tan_half fov)%f64) in
  let result := mat_set result I2 I2 (zfar / (zfar - znear))%f32 in
  let result := mat_set result I2 I3 ((- zfar * znear) / (zfar - znear))%f32 in
  let result := mat_set result I3 I2 (F32.of_float F64.one) in
  result.

End Libm.

(** [x != 0.0] for a [float] x: the comparison is made in [double]. *)
Definition float_nonzero (x : float) : bool := F64.neb (F64.of_float x) F64.zero.

Definition mat4_mul_vec4_project (mat_proj : mat4_t) (v : vec4_t) : vec4_t :=
  let result := mat4_mul_vec4 mat_proj v in
  if float_nonzero (vec4_w result) then
    let result := mk_vec4 (vec4_x result / vec4_w result)%f32
                          (vec4_y result) (vec4_z result) (vec4_w result) in
    let result := mk_vec4 (vec4_x result)
                          (vec4_y result / vec4_w result)%f32
                          (vec4_z result) (vec4_w result) in
    let result := mk_vec4 (vec4_x result) (vec4_y result)
                          (vec4_z result / vec4_w result)%f32
                          (vec4_w result) in
    result
  else result.

Section LookAt.
(** The helpers of vector.c that [mat4_look_at] calls; [vec3_normalize]
    returns the vector it leaves behind its pointer argument. *)
Variable vec3_sub : vec3_t -> vec3_t -> vec3_t.
Variable vec3_normalize : vec3_t -> vec3_t.
Variable vec3_cross : vec3_t -> vec3_t -> vec3_t.
Variable vec3_dot : vec3_t -> vec3_t -> float.

Definition mat4_look_at (eye target up : vec3_t) : mat4_t :=
  let z := vec3_sub target eye in
  let z := vec3_normalize z in
  let x := vec3_cross up z in
  let x := vec3_normalize x in
  let y := vec3_cross z x in
  mk_mat4
    (mk_row4 (vec3_x x) (vec3_y x) (vec3_z x) (- vec3_dot x eye)%f32)
    (mk_row4 (vec3_x y) (vec3_y y) (vec3_z y) (- vec3_dot y eye)%f32)
    (mk_row4 (vec3_x z) (vec3_y z) (vec3_z z) (- vec3_dot z eye)%f32)
    (row_of_ints 0 0 0 1).

End LookAt.

(** ** triangle.c *)

(** Modelled from the spec: [vec2_sub] of vector.c, which is not among the
    sources, is the difference of two points ("b-a"), component by
    component. *)
Definition vec2_sub (a b : vec2_t) : vec2_t :=
  mk_vec2 (vec2_x a - vec2_x b)%f32 (vec2_y a - vec2_y b)%f32.

(** Modelled from the spec: [vec2_from_vec4] of vector.c, which is not among
    the sources, keeps the 2D screen position (x,y) of a projected vertex. *)
Definition vec2_from_vec4 (v : vec4_t) : vec2_t :=
  mk_vec2 (vec4_x v) (vec4_y v).

Definition barycentric_weights (a b c p : vec2_t) : vec3_t :=
  let ab := vec2_sub b a in
  let bc := vec2_sub c b in
  let ac := vec2_sub c a in
  let ap := vec2_sub p a in
  let bp := vec2_sub p b in
  let area_triangle_abc :=
    (vec2_x ab * vec2_y ac - vec2_y ab * vec2_x ac)%f32 in
  let alpha :=
    ((vec2_x bc * vec2_y bp - vec2_x bp * vec2_y bc) / area_triangle_abc)%f32 in
  let beta :=
    ((vec2_x ap * vec2_y ac - vec2_x ac * vec2_y ap) / area_triangle_abc)%f32 in
  let gamma := (F32.of_Z 1 - alpha - beta)%f32 in
  mk_vec3 alpha beta gamma.

(** The calls the rasterizer makes to the frame buffer and to the depth
    buffer of display.c, in the order they are made. *)
Inductive call :=
  | call_draw_pixel (x y : Z) (color : Z)
  | call_set_zbuffer_at (x y : Z) (value : float).

(** [1.0 - f] for a [float] f, stored in a [float]: the subtraction is made
    in [double]. *)
Definition one_minus (f : float) : float :=
  F32.of_float (F64.one - F64.of_float f)%f64.

(** The integers [lo], [lo+1], ..., [hi-1]: the values a loop counter takes in
    [for (int i = lo; i < hi; i++)], and in [for (y = a; y <= b; y++)] with
    [hi = b + 1]. *)
Definition range (lo hi : Z) : list Z :=
  map (fun i => lo + Z.of_nat i) (seq 0 (Z.to_nat (hi - lo))).

(** The three compare-and-swap steps that sort the vertices by ascending y;
    [A] is what is swapped along with the y of a vertex. *)
Definition sort_by_y {A : Type} (y0 : Z) (a0 : A) (y1 : Z) (a1 : A)
    (y2 : Z) (a2 : A) : (Z * A) * (Z * A) * (Z * A) :=
  let '(y0, a0, y1, a1) :=
    if y0 >? y1 then (y1, a1, y0, a0) else (y0, a0, y1, a1) in
  let '(y1, a1, y2, a2) :=
    if y1 >? y2 then (y2, a2, y1, a1) else (y1, a1, y2, a2) in
  let '(y0, a0, y1, a1) :=
    if y0 >? y1 then (y1, a1, y0, a0) else (y0, a0, y1, a1) in
  ((y0, a0), (y1, a1), (y2, a2)).

(** [(float)dx / abs(dy)] *)
Definition slope_of (dx dy : Z) : float :=
  (F32.of_Z dx / F32.of_Z (Int.abs dy))%f32.

(** The bounds of one scanline, after the swap that orders them:
    [int x_start = x1 + (y - y1) * inv_slope_1;]
    [int x_end = x0 + (y - y0) * inv_slope_2;]
    [if (x_end < x_start) int_swap(&x_start, &x_end);] *)
Definition scan_bounds (x0 y0 x1 y1 : Z) (inv_slope_1 inv_slope_2 : float)
    (y : Z) : Z * Z :=
  let x_start :=
    int_of_float (F32.of_Z x1 + F32.of_Z (Int.sub y y1) * inv_slope_1)%f32 in
  let x_end :=
    int_of_float (F32.of_Z x0 + F32.of_Z (Int.sub y y0) * inv_slope_2)%f32 in
  if x_end <? x_start then (x_end, x_start) else (x_start, x_end).

(** The inverse slopes of the upper part:
    [float inv_slope_1 = 0; float inv_slope_2 = 0;]
    [if (y1 - y0 != 0) inv_slope_1 = (float)(x1 - x0) / abs(y1 - y0);]
    [if (y2 - y0 != 0) inv_slope_2 = (float)(x2 - x0) / abs(y2 - y0);] *)
Definition upper_slopes (x0 y0 x1 y1 x2 y2 : Z) : float * float :=
  let inv_slope_1 := F32.of_Z 0 in
  let inv_slope_2 := F32.of_Z 0 in
  let inv_slope_1 :=
    if negb (Int.sub y1 y0 =? 0)
    then slope_of (Int.sub x1 x0) (Int.sub y1 y0) else inv_slope_1 in
  let inv_slope_2 :=
    if negb (Int.sub y2 y0 =? 0)
    then slope_of (Int.sub x2 x0) (Int.sub y2 y0) else inv_slope_2 in
  (inv_slope_1, inv_slope_2).

(** The inverse slopes of the lower part:
    [inv_slope_1 = 0; inv_slope_2 = 0;]
    [if (y2 - y1 != 0) inv_slope_1 = (float)(x2 - x1) / abs(y2 - y1);]
    [if (y2 - y0 != 0) inv_slope_2 = (float)(x2 - x0) / abs(y2 - y0);] *)
Definition lower_slopes (x0 y0 x1 y1 x2 y2 : Z) : float * float :=
  let inv_slope_1 := F32.of_Z 0 in
  let inv_slope_2 := F32.of_Z 0 in
  let inv_slope_1 :=
    if negb (Int.sub y2 y1 =? 0)
    then slope_of (Int.sub x2 x1) (Int.sub y2 y1) else inv_slope_1 in
  let inv_slope_2 :=
    if negb (Int.sub y2 y0 =? 0)
    then slope_of (Int.sub x2 x0) (Int.sub y2 y0) else inv_slope_2 in
  (inv_slope_1, inv_slope_2).

(** What ends a call before it returns: the fault of an integer division
    ([%] by zero, or [INT_MIN % -1]), which kills the process, and the
    increment of a loop counter that holds [INT_MAX], after which ISO C gives
    the program no meaning (with a counter that wraps around, the loop starts
    again from [INT_MIN] and does not end). *)
Inductive stop :=
  | division_fault
  | counter_overflow.

(** The outcome of a call in a state [S]: it returns and leaves a state, or
    it stops in the state it has reached. *)
Inductive outcome (S : Type) : Type :=
  | returns (s : S)
  | stops (why : stop) (s : S).

Definition and_then (S : Type) (o : outcome S) (k : S -> outcome S)
    : outcome S :=
  match o with
  | returns s => k s
  | stops why s => stops why s
  end.

Notation "s <- o ;; k" := (and_then o (fun s => k))
  (at level 61, o at next level, right associativity).

(** The body of a loop at each value of its counter in turn, as long as it
    returns. *)
Fixpoint for_each (S A : Type) (body : S -> A -> outcome S) (l : list A)
    (s : S) : outcome S :=
  match l with
  | [] => returns s
  | a :: l' => s <- body s a ;; for_each body l' s
  end.

Section Display.
(** display.c is not among the sources: the frame buffer and the depth
    buffer are a state of some type, read and written through its three
    functions. *)
Variable display : Type.
Variable get_zbuffer_at : display -> Z -> Z -> float.
Variable set_zbuffer_at : display -> Z -> Z -> float -> display.
Variable draw_pixel : display -> Z -> Z -> Z -> display.

(** The state the rasterizer runs in: the buffers, and the calls made so far. *)
Record world := mk_world { buffers : display; calls : list call }.

Definition do_draw_pixel (x y color : Z) (w : world) : world :=
  mk_world (draw_pixel (buffers w) x y color)
           (calls w ++ [call_draw_pixel x y color]).

Definition do_set_zbuffer_at (x y : Z) (value : float) (w : world) : world :=
  mk_world (set_zbuffer_at (buffers w) x y value)
           (calls w ++ [call_set_zbuffer_at x y value]).

(** The interpolated 1/w of [draw_triangle_pixel] and [draw_texel]. *)
Definition interpolate_reciprocal_w (point_a point_b point_c : vec4_t)
    (weights : vec3_t) : float :=
  let alpha := vec3_x weights in
  let beta := vec3_y weights in
  let gamma := vec3_z weights in
  ((F32.of_Z 1 / vec4_w point_a) * alpha +
   (F32.of_Z 1 / vec4_w point_b) * beta +
   (F32.of_Z 1 / vec4_w point_c) * gamma)%f32.

Definition draw_triangle_pixel (x y : Z) (color : Z)
    (point_a point_b point_c : vec4_t) (w : world) : world :=
  let p := mk_vec2 (F32.of_Z x) (F32.of_Z y) in
  let a := vec2_from_vec4 point_a in
  let b := vec2_from_vec4 point_b in
  let c := vec2_from_vec4 point_c in
  let weights := barycentric_weights a b c p in
  let interpolated_reciprocal_w :=
    interpolate_reciprocal_w point_a point_b point_c weights in
  let interpolated_reciprocal_w := one_minus interpolated_reciprocal_w in
  if (interpolated_reciprocal_w <? get_zbuffer_at (buffers w) x y)%f32 then
    let w := do_draw_pixel x y color w in
    do_set_zbuffer_at x y interpolated_reciprocal_w w
  else w.

(** One scanline, with the routine called at every pixel of it:
    [for (int x = x_start; x < x_end; x++) pixel(x, y);]
    The counter stays below [x_end]: its increment does not overflow. *)
Definition scan_line (pixel : Z -> Z -> world -> outcome world)
    (x0 y0 x1 y1 : Z) (inv_slope_1 inv_slope_2 : float)
    (w : world) (y : Z) : outcome world :=
  let '(x_start, x_end) :=
    scan_bounds x0 y0 x1 y1 inv_slope_1 inv_slope_2 y in
  for_each (fun w x => pixel x y w) (range x_start x_end) w.

(** One part of a triangle:
    [for (int y = y_top; y <= y_bottom; y++) { ... }]
    After the row [y_bottom] the counter is incremented once more, which
    overflows when [y_bottom] is [INT_MAX]. *)
Definition scan_part (pixel : Z -> Z -> world -> outcome world)
    (x0 y0 x1 y1 : Z) (inv_slope_1 inv_slope_2 : float)
    (y_top y_bottom : Z) (w : world) : outcome world :=
  w <- for_each (scan_line pixel x0 y0 x1 y1 inv_slope_1 inv_slope_2)
         (range y_top (y_bottom + 1)) w ;;
  if (y_top <=? y_bottom) && (y_bottom =? Int.max_signed)
  then stops counter_overflow w
  else returns w.

(** The body of the two fill functions after the vertices are sorted and the
    points are built: the upper (flat-bottom) part, then the lower (flat-top)
    part. *)
Definition fill_parts (pixel : Z -> Z -> world -> outcome world)
    (x0 y0 x1 y1 x2 y2 : Z) (w : world) : outcome world :=
  let '(inv_slope_1, inv_slope_2) := upper_slopes x0 y0 x1 y1 x2 y2 in
  w <- (if negb (Int.sub y1 y0 =? 0)
        then scan_part pixel x0 y0 x1 y1 inv_slope_1 inv_slope_2 y0 y1 w
        else returns w) ;;
  let '(inv_slope_1, inv_slope_2) := lower_slopes x0 y0 x1 y1 x2 y2 in
  if negb (Int.sub y2 y1 =? 0)
  then scan_part pixel x0 y0 x1 y1 inv_slope_1 inv_slope_2 y1 y2 w
  else returns w.

Definition draw_filled_triangle
    (x0 y0 : Z) (z0 w0 : float) (x1 y1 : Z) (z1 w1 : float)
    (x2 y2 : Z) (z2 w2 : float) (color : Z) (w : world) : outcome world :=
  let '((y0, (x0, z0, w0)), (y1, (x1, z1, w1)), (y2, (x2, z2, w2))) :=
    sort_by_y y0 (x0, z0, w0) y1 (x1, z1, w1) y2 (x2, z2, w2) in
  let point_a := mk_vec4 (F32.of_Z x0) (F32.of_Z y0) z0 w0 in
  let point_b := mk_vec4 (F32.of_Z x1) (F32.of_Z y1) z1 w1 in
  let point_c := mk_vec4 (F32.of_Z x2) (F32.of_Z y2) z2 w2 in
  fill_parts
    (fun x y w =>
       returns (draw_triangle_pixel x y color point_a point_b point_c w))
    x0 y0 x1 y1 x2 y2 w.

Section Texture.
(** upng.c is not among the sources: a texture has a width, a height and a
    buffer of 32-bit colours read by index. *)
Variable upng_t : Type.
Variable upng_get_width : upng_t -> Z.
Variable upng_get_height : upng_t -> Z.
Variable upng_get_buffer : upng_t -> Z -> Z.

(** [abs((int)(f * size)) % size]: [None] when the division faults. *)
Definition texel_coord (f : float) (size : Z) : option Z :=
  Int.rem (Int.abs (int_of_float (f * F32.of_Z size)%f32)) size.

(** The perspective-correct [interpolated_u] (or [interpolated_v]) of
    [draw_texel], from the attribute at the three vertices. *)
Definition interpolate_attribute (point_a point_b point_c : vec4_t)
    (weights : vec3_t) (attr_a attr_b attr_c : float) : float :=
  let alpha := vec3_x weights in
  let beta := vec3_y weights in
  let gamma := vec3_z weights in
  let interpolated :=
    ((attr_a / vec4_w point_a) * alpha + (attr_b / vec4_w point_b) * beta +
     (attr_c / vec4_w point_c) * gamma)%f32 in
  (interpolated / interpolate_reciprocal_w point_a point_b point_c weights)%f32.

(** The two [%] are evaluated before the depth test: a fault of either
    stops the call with the buffers as they were. *)
Definition draw_texel (x y : Z) (texture : upng_t)
    (point_a point_b point_c : vec4_t) (a_uv b_uv c_uv : tex2_t)
    (w : world) : outcome world :=
  let p := mk_vec2 (F32.of_Z x) (F32.of_Z y) in
  let a := vec2_from_vec4 point_a in
  let b := vec2_from_vec4 point_b in
  let c := vec2_from_vec4 point_c in
  let weights := barycentric_weights a b c p in
  let interpolated_u :=
    interpolate_attribute point_a point_b point_c weights
      (tex2_u a_uv) (tex2_u b_uv) (tex2_u c_uv) in
  let interpolated_v :=
    interpolate_attribute point_a point_b point_c weights
      (tex2_v a_uv) (tex2_v b_uv) (tex2_v c_uv) in
  let interpolated_reciprocal_w :=
    interpolate_reciprocal_w point_a point_b point_c weights in
  let texture_width := upng_get_width texture in
  let texture_height := upng_get_height texture in
  match texel_coord interpolated_u texture_width with
  | None => stops division_fault w
  | Some tex_x =>
      match texel_coord interpolated_v texture_height with
      | None => stops division_fault w
      | Some tex_y =>
          let interpolated_reciprocal_w :=
            one_minus interpolated_reciprocal_w in
          if (interpolated_reciprocal_w <? get_zbuffer_at (buffers w) x y)%f32
          then
            let texture_buffer := upng_get_buffer texture in
            let w :=
              do_draw_pixel x y
                (texture_buffer
                   (Int.add (Int.mul texture_width tex_y) tex_x)) w in
            returns (do_set_zbuffer_at x y interpolated_reciprocal_w w)
          else returns w
      end
  end.

Definition draw_textured_triangle
    (x0 y0 : Z) (z0 w0 u0 v0 : float) (x1 y1 : Z) (z1 w1 u1 v1 : float)
    (x2 y2 : Z) (z2 w2 u2 v2 : float) (texture : upng_t) (w : world)
    : outcome world :=
  let '((y0, (x0, z0, w0, u0, v0)), (y1, (x1, z1, w1, u1, v1)),
        (y2, (x2, z2, w2, u2, v2))) :=
    sort_by_y y0 (x0, z0, w0, u0, v0) y1 (x1, z1, w1, u1, v1)
              y2 (x2, z2, w2, u2, v2) in
  let v0 := one_minus v0 in
  let v1 := one_minus v1 in
  let v2 := one_minus v2 in
  let point_a := mk_vec4 (F32.of_Z x0) (F32.of_Z y0) z0 w0 in
  let point_b := mk_vec4 (F32.of_Z x1) (F32.of_Z y1) z1 w1 in
  let point_c := mk_vec4 (F32.of_Z x2) (F32.of_Z y2) z2 w2 in
  let a_uv := mk_tex2 u0 v0 in
  let b_uv := mk_tex2 u1 v1 in
  let c_uv := mk_tex2 u2 v2 in
  fill_parts
    (fun x y => draw_texel x y texture point_a point_b point_c a_uv b_uv c_uv)
    x0 y0 x1 y1 x2 y2 w.

End Texture.
End Display.
(** ** array.c *)

(** The header that precedes the data of a growable array.  array.c reads
    and writes the header only: the data that follow it are left to the
    callers and to [realloc]. *)
Record ArrayHeader := mk_header { capacity : Z; size : Z }.

(** A [void *array]: [NULL], or the address of the data of a live block with
    the given header. *)
Definition array_ptr : Type := option ArrayHeader.

(** [sizeof(ArrayHeader)]: two [int], the flexible member takes no room. *)
Definition sizeof_ArrayHeader : Z := 8.

(** [int raw_size = sizeof(ArrayHeader) + (item_size * capacity);], and the
    [size_t] that [malloc] and [realloc] receive for it. *)
Definition raw_size (item_size capacity : Z) : Z :=
  Int.wrap (sizeof_ArrayHeader + Int.mul item_size capacity).

Definition size_t_of_int (n : Z) : Z := n mod 2 ^ 64.

Definition get_data_pointer (header : option ArrayHeader) : array_ptr := header.

Section Allocator.
(** Whether [malloc], or [realloc], satisfies a request of the given number
    of bytes. *)
Variable allocates : Z -> bool.

(** [array_hold]; the result is [None] when the function writes through the
    null pointer that a failed allocation returned. *)
Definition array_hold (array : array_ptr) (count item_size : Z)
    : option array_ptr :=
  let header := array in
  let required_size :=
    match header with
    | Some h => Int.add (size h) count
    | None => count
    end in
  match header with
  | None =>
      let initial_capacity := if count >? 4 then count else 4 in
      let raw_size := raw_size item_size initial_capacity in
      if allocates (size_t_of_int raw_size)
      then Some (get_data_pointer (Some (mk_header initial_capacity count)))
      else None
  | Some h =>
      if required_size <=? capacity h
      then Some (get_data_pointer
                   (Some (mk_header (capacity h) (Int.add (size h) count))))
      else
        let new_capacity := Int.mul (capacity h) 2 in
        let new_capacity :=
          if required_size >? new_capacity then required_size
          else new_capacity in
        let raw_size := raw_size item_size new_capacity in
        if allocates (size_t_of_int raw_size)
        then Some (get_data_pointer (Some (mk_header new_capacity required_size)))
        else None
  end.

(** [n] calls [array = array_hold(array, 1, item_size)] in a row, as a
    caller that appends [n] items makes them. *)
Fixpoint array_hold_one_by_one (n : nat) (array : array_ptr) (item_size : Z)
    : option array_ptr :=
  match n with
  | O => Some array
  | S k =>
      match array_hold array 1 item_size with
      | Some array' => array_hold_one_by_one k array' item_size
      | None => None
      end
  end.

End Allocator.

Definition array_length (array : array_ptr) : Z :=
  match array with
  | None => 0
  | Some header => size header
  end.

(** * Definitions for the statements *)

(** ** Floating point values *)

(** +0 or -0. *)
Definition is_zero (x : spec_float) : bool :=
  match x with S754_zero _ => true | _ => false end.

(** Neither an infinity nor a NaN. *)
Definition finite_or_zero (x : spec_float) : bool :=
  match x with S754_zero _ | S754_finite _ _ _ => true | _ => false end.

(** A zero or a finite number of the format [float]: neither an infinity nor
    a NaN. *)
Definition finite32 (x : spec_float) : bool :=
  match x with
  | S754_zero _ => true
  | S754_finite _ _ _ => F32.valid x
  | _ => false
  end.

Definition finite_vec4 (v : vec4_t) : bool :=
  finite32 (vec4_x v) && finite32 (vec4_y v) &&
  finite32 (vec4_z v) && finite32 (vec4_w v).

Definition finite_row (r : row4) : bool :=
  finite32 (c0 r) && finite32 (c1 r) && finite32 (c2 r) && finite32 (c3 r).

Definition finite_mat4 (a : mat4_t) : bool :=
  finite_row (r0 a) && finite_row (r1 a) && finite_row (r2 a) &&
  finite_row (r3 a).

(** [==] of C on vectors and matrices, component by component. *)
Definition vec4_eqb (u v : vec4_t) : bool :=
  F32.eqb (vec4_x u) (vec4_x v) && F32.eqb (vec4_y u) (vec4_y v) &&
  F32.eqb (vec4_z u) (vec4_z v) && F32.eqb (vec4_w u) (vec4_w v).

Definition row_eqb (r s : row4) : bool :=
  F32.eqb (c0 r) (c0 s) && F32.eqb (c1 r) (c1 s) &&
  F32.eqb (c2 r) (c2 s) && F32.eqb (c3 r) (c3 s).

Definition mat4_eqb (a b : mat4_t) : bool :=
  row_eqb (r0 a) (r0 b) && row_eqb (r1 a) (r1 b) &&
  row_eqb (r2 a) (r2 b) && row_eqb (r3 a) (r3 b).

(** Equal, or two zeros (of any sign). *)
Definition same_value (a b : float) : Prop :=
  a = b \/ (is_zero a = true /\ is_zero b = true).

(** +infinity *)
Definition infinity : float := S754_infinity false.

(** A [float] written as a fraction of two integers. *)
Definition ratio (n d : Z) : float := (F32.of_Z n / F32.of_Z d)%f32.

(** ** Vectors and matrices *)

(** Vectors with integer components, for the examples. *)
Definition vec4_of_ints (x y z w : Z) : vec4_t :=
  mk_vec4 (F32.of_Z x) (F32.of_Z y) (F32.of_Z z) (F32.of_Z w).

Definition vec2_of_ints (x y : Z) : vec2_t := mk_vec2 (F32.of_Z x) (F32.of_Z y).

(** The texture coordinate u = v = n/d. *)
Definition uv (n d : Z) : tex2_t := mk_tex2 (ratio n d) (ratio n d).

(** [r] with x, y and z divided by [r.w], and w as it is. *)
Definition divided_by_w (r : vec4_t) : vec4_t :=
  mk_vec4 (vec4_x r / vec4_w r)%f32 (vec4_y r / vec4_w r)%f32
          (vec4_z r / vec4_w r)%f32 (vec4_w r).

(** The last row of a matrix, [m[3][0..3]]. *)
Definition bottom_row (a : mat4_t) : row4 := r3 a.

(** ** The formulas of the specification *)

(** The 2D cross product, in the convention of the area of the triangle:
    [cross(u,v) = u.x*v.y - u.y*v.x]. *)
Definition cross (u v : vec2_t) : float :=
  (vec2_x u * vec2_y v - vec2_y u * vec2_x v)%f32.

(** The weights as the specification writes them, with
    [beta = cross(c-a, p-a) / area_abc]. *)
Definition spec_barycentric_weights (a b c p : vec2_t) : vec3_t :=
  let area_abc := cross (vec2_sub b a) (vec2_sub c a) in
  let alpha := (cross (vec2_sub c b) (vec2_sub p b) / area_abc)%f32 in
  let beta := (cross (vec2_sub c a) (vec2_sub p a) / area_abc)%f32 in
  let gamma := (F32.of_Z 1 - alpha - beta)%f32 in
  mk_vec3 alpha beta gamma.

(** The coordinate as the specification writes it:
    [|floor(f * size)| mod size]. *)
Definition spec_texel_coord (f : float) (size : Z) : option Z :=
  option_map (fun n => Z.abs n mod size) (floor_of_float (f * F32.of_Z size)%f32).

(** The entry [m[0][0]] as the specification writes it,
    [aspect_ratio / tan(fov/2)], evaluated like the other [double]
    expressions of the function and rounded to [float]. *)
Definition spec_perspective_00 (tan : double -> double)
    (fov aspect_ratio : float) : float :=
  F32.of_float (F64.of_float aspect_ratio / tan_half tan fov)%f64.

(** The entry [m[0][0]] as the source writes it,
    [aspect_ratio * (1 / tan(fov/2))]. *)
Definition perspective_00 (tan : double -> double)
    (fov aspect_ratio : float) : float :=
  F32.of_float (F64.of_float aspect_ratio * (F64.of_Z 1 / tan_half tan fov))%f64.

(** The double nearest to tan(0.625), 0x3FE7166689D41EF0: what [tan] returns
    at the only argument the example below passes to it. *)
Definition tan_at_0625 (x : double) : double :=
  S754_finite false 6498554119200496 (-53).

(** ** What a pixel routine does, written out

    The definitions of this part and of the next one are written from the
    specification on the operations of the machine numbers.  Of the part on
    triangle.c they use the types of the calls, of the world and of the
    outcomes, and none of its functions. *)

(** The barycentric weights alpha, beta and gamma of the pixel (x,y) in the
    triangle of the three projected vertices:
    [alpha = cross(c-b, p-b) / area], [beta = cross(p-a, c-a) / area] and
    [gamma = 1 - alpha - beta], with [area = cross(b-a, c-a)] and
    [cross(u,v) = u.x*v.y - u.y*v.x]. *)
Definition weights_at (point_a point_b point_c : vec4_t) (x y : Z)
    : float * float * float :=
  let px := F32.of_Z x in
  let py := F32.of_Z y in
  let '(ax, ay) := (vec4_x point_a, vec4_y point_a) in
  let '(bx, b_y) := (vec4_x point_b, vec4_y point_b) in
  let '(cx, cy) := (vec4_x point_c, vec4_y point_c) in
  let area :=
    ((bx - ax) * (cy - ay) - (b_y - ay) * (cx - ax))%f32 in
  let alpha :=
    (((cx - bx) * (py - b_y) - (cy - b_y) * (px - bx)) / area)%f32 in
  let beta :=
    (((px - ax) * (cy - ay) - (py - ay) * (cx - ax)) / area)%f32 in
  (alpha, beta, (F32.of_Z 1 - alpha - beta)%f32).

(** The barycentric interpolation of 1/w at the pixel (x,y). *)
Definition reciprocal_w_at (point_a point_b point_c : vec4_t) (x y : Z)
    : float :=
  let '(alpha, beta, gamma) := weights_at point_a point_b point_c x y in
  ((F32.of_Z 1 / vec4_w point_a) * alpha +
   (F32.of_Z 1 / vec4_w point_b) * beta +
   (F32.of_Z 1 / vec4_w point_c) * gamma)%f32.

(** [1.0 - f] for a [float] f: 1.0 is a [double], the difference is taken in
    [double] and rounded to [float]. *)
Definition inverted (f : float) : float :=
  F32.of_float (F64.of_Z 1 - F64.of_float f)%f64.

(** The depth metric of the pixel (x,y): 1.0 minus the interpolated 1/w. *)
Definition spec_depth_metric (point_a point_b point_c : vec4_t) (x y : Z)
    : float :=
  inverted (reciprocal_w_at point_a point_b point_c x y).

(** The perspective-correct interpolation at the pixel (x,y) of an attribute
    given at the three vertices: the interpolation of attribute/w, divided
    by that of 1/w. *)
Definition attribute_at (point_a point_b point_c : vec4_t) (x y : Z)
    (attr_a attr_b attr_c : float) : float :=
  let '(alpha, beta, gamma) := weights_at point_a point_b point_c x y in
  (((attr_a / vec4_w point_a) * alpha + (attr_b / vec4_w point_b) * beta +
    (attr_c / vec4_w point_c) * gamma) /
   reciprocal_w_at point_a point_b point_c x y)%f32.

(** The integer division of [n] by [d] faults: [d] is zero, or [n] is
    [INT_MIN] and [d] is -1. *)
Definition division_faults (n d : Z) : bool :=
  (d =? 0) || ((n =? Int.min_signed) && (d =? -1)).

(** One of [abs((int)(u * texture_width)) % texture_width] and
    [abs((int)(v * texture_height)) % texture_height] faults. *)
Definition texel_faults (texture_width texture_height : Z) (u v : float)
    : bool :=
  division_faults
    (Int.abs (int_of_float (u * F32.of_Z texture_width)%f32)) texture_width ||
  division_faults
    (Int.abs (int_of_float (v * F32.of_Z texture_height)%f32)) texture_height.

Section Observations.
Variable display : Type.
Variable get_zbuffer_at : display -> Z -> Z -> float.
Variable set_zbuffer_at : display -> Z -> Z -> float -> display.
Variable draw_pixel : display -> Z -> Z -> Z -> display.


End Observations.

(** ** The pixels a fill function visits, written out *)

(** The integers from [a] to [b], both included. *)
Definition from_to (a b : Z) : list Z :=
  map (fun i => a + Z.of_nat i) (seq 0 (Z.to_nat (b + 1 - a))).

(** The inverse slope of the edge from (xa,ya) to (xb,yb): the quotient of
    [xb - xa] by [|yb - ya|], and 0 for an edge of height zero. *)
Definition edge_slope (xa ya xb yb : Z) : float :=
  if yb =? ya then F32.of_Z 0
  else (F32.of_Z (Int.sub xb xa) / F32.of_Z (Int.abs (Int.sub yb ya)))%f32.

(** The pixels of the row [y], from left to right: those from the lesser
    to the greater (excluded) of [x1 + (y - y1) * slope_1] and
    [x0 + (y - y0) * slope_2], each converted to [int]. *)
Definition row_pixels (x0 y0 x1 y1 : Z) (slope_1 slope_2 : float) (y : Z)
    : list (Z * Z) :=
  let a :=
    int_of_float (F32.of_Z x1 + F32.of_Z (Int.sub y y1) * slope_1)%f32 in
  let b :=
    int_of_float (F32.of_Z x0 + F32.of_Z (Int.sub y y0) * slope_2)%f32 in
  map (fun x => (x, y)) (from_to (Z.min a b) (Z.max a b - 1)).

(** The pixels of the rows of the upper part, between the edge from vertex 0
    to vertex 1 and the edge from vertex 0 to vertex 2, from the row
    [y_first] to the row [y_last]. *)
Definition upper_rows (x0 y0 x1 y1 x2 y2 : Z) (y_first y_last : Z)
    : list (Z * Z) :=
  flat_map
    (row_pixels x0 y0 x1 y1 (edge_slope x0 y0 x1 y1) (edge_slope x0 y0 x2 y2))
    (from_to y_first y_last).

(** The pixels of the rows of the lower part, between the edge from vertex 1
    to vertex 2 and the edge from vertex 0 to vertex 2. *)
Definition lower_rows (x0 y0 x1 y1 x2 y2 : Z) (y_first y_last : Z)
    : list (Z * Z) :=
  flat_map
    (row_pixels x0 y0 x1 y1 (edge_slope x1 y1 x2 y2) (edge_slope x0 y0 x2 y2))
    (from_to y_first y_last).

(** The pixels of the row of the middle vertex. *)
Definition middle_row (x0 y0 x1 y1 x2 y2 : Z) : list (Z * Z) :=
  row_pixels x0 y0 x1 y1 (edge_slope x0 y0 x1 y1) (edge_slope x0 y0 x2 y2) y1.

(** The pixels that the two loops visit for sorted vertices, in order: the
    upper loop runs over the rows y0 to y1 unless these are equal, the lower
    loop over the rows y1 to y2 unless these are equal. *)
Definition triangle_visits (x0 y0 x1 y1 x2 y2 : Z) : list (Z * Z) :=
  (if y1 =? y0 then [] else upper_rows x0 y0 x1 y1 x2 y2 y0 y1) ++
  (if y2 =? y1 then [] else lower_rows x0 y0 x1 y1 x2 y2 y1 y2).

(** The pixels of two loops that would run whatever the y of the vertices:
    every row from y0 to y1, then every row from y1 to y2. *)
Definition unguarded_visits (x0 y0 x1 y1 x2 y2 : Z) : list (Z * Z) :=
  upper_rows x0 y0 x1 y1 x2 y2 y0 y1 ++ lower_rows x0 y0 x1 y1 x2 y2 y1 y2.

(** A routine called at each pixel of a list in turn, as long as it
    returns. *)
Fixpoint visit_all (S : Type) (pixel : Z -> Z -> S -> outcome S)
    (ps : list (Z * Z)) (s : S) : outcome S :=
  match ps with
  | [] => returns s
  | (x, y) :: ps' =>
      match pixel x y s with
      | returns s' => visit_all pixel ps' s'
      | stops why s' => stops why s'
      end
  end.

(** The outcome [o] of the visits of a triangle whose rows go from
    [y_first] to [y_last], followed by the increment of the row counter after
    the last row, which overflows when that row is [INT_MAX]. *)
Definition after_rows (S : Type) (y_first y_last : Z) (o : outcome S)
    : outcome S :=
  match o with
  | returns s =>
      if (y_first <? y_last) && (y_last =? Int.max_signed)
      then stops counter_overflow s
      else returns s
  | stops why s => stops why s
  end.

(** The state an outcome leaves. *)
Definition state_of (S : Type) (o : outcome S) : S :=
  match o with
  | returns s => s
  | stops _ s => s
  end.

(** ** Displays and a texture for the examples

    The depth buffer and the frame buffer of the sample display are
    association lists, the most recent write first; a depth that was never
    written reads as 1.0, the value the buffer is cleared to.  The texture of
    size [width] x [height] holds at index [i] the colour [i]. *)
Module Sample.

Record display := mk_display
  { zbuffer : list (Z * Z * float); colors : list (Z * Z * Z) }.

Definition cleared : display := mk_display [] [].

Fixpoint find_depth (l : list (Z * Z * float)) (x y : Z) : float :=
  match l with
  | [] => F32.one
  | (x', y', v) :: l' =>
      if (x =? x') && (y =? y') then v else find_depth l' x y
  end.

Definition get_zbuffer_at (d : display) (x y : Z) : float :=
  find_depth (zbuffer d) x y.

Definition set_zbuffer_at (d : display) (x y : Z) (v : float) : display :=
  mk_display ((x, y, v) :: zbuffer d) (colors d).

Definition draw_pixel (d : display) (x y color : Z) : display :=
  mk_display (zbuffer d) ((x, y, color) :: colors d).

Record texture := mk_texture { width : Z; height : Z }.

Definition buffer (t : texture) (i : Z) : Z := i.

Definition start : world display := mk_world cleared [].

End Sample.

(** A display that stores nothing and on which every depth that is not a
    NaN passes the test: the calls show every visit of a pixel. *)
Module Probe.

Definition display : Type := unit.
Definition get_zbuffer_at (d : display) (x y : Z) : float := infinity.
Definition set_zbuffer_at (d : display) (x y : Z) (v : float) : display := d.
Definition draw_pixel (d : display) (x y color : Z) : display := d.
Definition start : world display := mk_world tt [].

End Probe.

(** [draw_texel] of the examples: the triangle (0,0), (4,0), (0,4) with w = 1
    at every vertex, on the cleared display. *)
Definition sample_texel (x y : Z) (texture : Sample.texture)
    (a_uv b_uv c_uv : tex2_t) : outcome (world Sample.display) :=
  draw_texel Sample.get_zbuffer_at Sample.set_zbuffer_at Sample.draw_pixel
    Sample.width Sample.height Sample.buffer
    x y texture
    (vec4_of_ints 0 0 0 1) (vec4_of_ints 4 0 0 1) (vec4_of_ints 0 4 0 1)
    a_uv b_uv c_uv Sample.start.

(** ** Values that are not a number *)

Definition is_nan (x : spec_float) : bool :=
  match x with S754_nan => true | _ => false end.

(** [cos] and [sin] of <math.h> for the examples: their values at the only
    argument, 0, that the examples pass to them. *)
Definition cos_at_0 (x : double) : double := F64.one.
Definition sin_at_0 (x : double) : double := F64.zero.

(** ** What the fill functions call, and where *)




Section DepthBuffer.
Variable display : Type.
Variable get_zbuffer_at : display -> Z -> Z -> float.
Variable set_zbuffer_at : display -> Z -> Z -> float -> display.
Variable draw_pixel : display -> Z -> Z -> Z -> display.

(** The laws of a depth buffer with one cell per pixel: a cell holds the
    value last written to it, and neither a write to another cell nor
    [draw_pixel] changes it. *)
Definition depth_buffer_laws : Prop :=
  (forall d x y v, get_zbuffer_at (set_zbuffer_at d x y v) x y = v) /\
  (forall d x y v x' y', (x', y') <> (x, y) ->
     get_zbuffer_at (set_zbuffer_at d x y v) x' y' = get_zbuffer_at d x' y') /\
  (forall d x y c x' y',
     get_zbuffer_at (draw_pixel d x y c) x' y' = get_zbuffer_at d x' y').


End DepthBuffer.

(** ** Definitions for the proofs on the scan loops

    The loops of the source, unfolded into the list of the pixels they
    visit, and the pixel routines seen as one routine with a test on a depth
    [D x y] that draws a colour [C x y]. *)

(** The pixels one part of a triangle visits, in the order of the two nested
    loops. *)
Definition scan_pixels (x0 y0 x1 y1 : Z) (inv_slope_1 inv_slope_2 : float)
    (y_top y_bottom : Z) : list (Z * Z) :=
  flat_map (fun y =>
      let '(x_start, x_end) :=
        scan_bounds x0 y0 x1 y1 inv_slope_1 inv_slope_2 y in
      map (fun x => (x, y)) (range x_start x_end))
    (range y_top (y_bottom + 1)).

(** The pixels of the upper part and those of the lower part, each empty
    when its loop is skipped. *)
Definition upper_pixels (x0 y0 x1 y1 x2 y2 : Z) : list (Z * Z) :=
  if negb (Int.sub y1 y0 =? 0)
  then scan_pixels x0 y0 x1 y1 (fst (upper_slopes x0 y0 x1 y1 x2 y2))
         (snd (upper_slopes x0 y0 x1 y1 x2 y2)) y0 y1
  else [].

Definition lower_pixels (x0 y0 x1 y1 x2 y2 : Z) : list (Z * Z) :=
  if negb (Int.sub y2 y1 =? 0)
  then scan_pixels x0 y0 x1 y1 (fst (lower_slopes x0 y0 x1 y1 x2 y2))
         (snd (lower_slopes x0 y0 x1 y1 x2 y2)) y1 y2
  else [].

Definition fill_pixels (x0 y0 x1 y1 x2 y2 : Z) : list (Z * Z) :=
  upper_pixels x0 y0 x1 y1 x2 y2 ++ lower_pixels x0 y0 x1 y1 x2 y2.

(** The counter of a part overflows: the part is run and its last row is
    [INT_MAX]. *)
Definition part_overflows (y_top y_bottom : Z) : bool :=
  negb (Int.sub y_bottom y_top =? 0) &&
  ((y_top <=? y_bottom) && (y_bottom =? Int.max_signed)).

Section TestedPixel.
Variable display : Type.
Variable get_zbuffer_at : display -> Z -> Z -> float.
Variable set_zbuffer_at : display -> Z -> Z -> float -> display.
Variable draw_pixel : display -> Z -> Z -> Z -> display.

(** A pixel routine: the colour [C x y] is drawn behind a depth test on
    [D x y]. *)
Definition tested_pixel (D : Z -> Z -> float) (C : Z -> Z -> Z)
    (x y : Z) (w : world display) : world display :=
  if (D x y <? get_zbuffer_at (buffers w) x y)%f32
  then do_set_zbuffer_at set_zbuffer_at x y (D x y)
         (do_draw_pixel draw_pixel x y (C x y) w)
  else w.

(** The same routine behind a division that faults at the pixels where [F]
    holds. *)
Definition guarded_pixel (F : Z -> Z -> bool) (D : Z -> Z -> float)
    (C : Z -> Z -> Z) (x y : Z) (w : world display)
    : outcome (world display) :=
  if F x y then stops division_fault w else returns (tested_pixel D C x y w).

(** The depth test fails at the pixel [p]: the routine leaves [w] alone. *)
Definition settled (D : Z -> Z -> float) (w : world display) (p : Z * Z) : Prop :=
  (D (fst p) (snd p) <? get_zbuffer_at (buffers w) (fst p) (snd p))%f32 = false.

(** A pixel routine that always returns, run on a list of pixels. *)
Definition run_pixels (pixel : Z -> Z -> world display -> world display)
    (ps : list (Z * Z)) (w : world display) : world display :=
  fold_left (fun w p => pixel (fst p) (snd p) w) ps w.


End TestedPixel.

Section TexelRoutine.
Variable upng_t : Type.
Variable upng_get_width : upng_t -> Z.
Variable upng_get_height : upng_t -> Z.
Variable upng_get_buffer : upng_t -> Z -> Z.

(** [draw_texel] in that form: where it faults, and the colour it draws. *)
Definition texel_stops (texture : upng_t) (point_a point_b point_c : vec4_t)
    (a_uv b_uv c_uv : tex2_t) (x y : Z) : bool :=
  texel_faults (upng_get_width texture) (upng_get_height texture)
    (attribute_at point_a point_b point_c x y
       (tex2_u a_uv) (tex2_u b_uv) (tex2_u c_uv))
    (attribute_at point_a point_b point_c x y
       (tex2_v a_uv) (tex2_v b_uv) (tex2_v c_uv)).

Definition texel_colour (texture : upng_t) (point_a point_b point_c : vec4_t)
    (a_uv b_uv c_uv : tex2_t) (x y : Z) : Z :=
  let u := attribute_at point_a point_b point_c x y
             (tex2_u a_uv) (tex2_u b_uv) (tex2_u c_uv) in
  let v := attribute_at point_a point_b point_c x y
             (tex2_v a_uv) (tex2_v b_uv) (tex2_v c_uv) in
  match texel_coord u (upng_get_width texture),
        texel_coord v (upng_get_height texture) with
  | Some tex_x, Some tex_y =>
      upng_get_buffer texture
        (Int.add (Int.mul (upng_get_width texture) tex_y) tex_x)
  | _, _ => 0
  end.

End TexelRoutine.

(** ** The headers of the growable arrays *)

(** A header that [array_hold] can grow without overflow: the size is within
    the capacity and twice the capacity is still an [int]. *)
Definition sound_header (h : ArrayHeader) : Prop :=
  0 <= size h <= capacity h /\ 0 < capacity h /\ 2 * capacity h <= Int.max_signed.

(** The header of an array that holds [s] items, appended one by one: the
    capacity is 4 doubled some number of times, and less than twice the
    size once it has grown. *)
Definition grown_by_doubling (s : Z) (h : ArrayHeader) : Prop :=
  size h = s /\ s <= capacity h <= Z.max 4 (2 * s - 2) /\
  exists k, 0 <= k /\ capacity h = 4 * 2 ^ k.

(** * Properties *)

(** ** Facts on the floating point operations *)

Lemma SFmul_comm (prec emax : Z) (x y : spec_float) :
  SFmul prec emax x y = SFmul prec emax y x.
Proof.
  destruct x as [sx|sx| |sx mx ex], y as [sy|sy| |sy my ey]; simpl;
    try reflexivity; try (now rewrite xorb_comm).
  now rewrite xorb_comm, Pos.mul_comm, Z.add_comm.
Qed.

Lemma F32_mul_comm (x y : float) : (x * y)%f32 = (y * x)%f32.
Proof. apply SFmul_comm. Qed.

Lemma digits2_pos_iter_xO (m n : positive) :
  Zpos (digits2_pos (Pos.iter xO m n)) = Zpos (digits2_pos m) + Zpos n.
Proof.
  induction n as [|n IH] using Pos.peano_ind.
  - simpl. lia.
  - rewrite Pos.iter_succ. simpl digits2_pos. lia.
Qed.

Lemma shr_fexp_exact (prec emax m e : Z) :
  fexp prec emax (Zdigits2 m + e) - e <= 0 ->
  shr_fexp prec emax m e loc_Exact = (Build_shr_record m false false, e).
Proof.
  intros H. unfold shr_fexp, shr. simpl shr_record_of_loc.
  destruct (fexp prec emax (Zdigits2 m + e) - e); try reflexivity; lia.
Qed.

(** No rounding takes place when the mantissa already fits the format. *)
Lemma binary_round_aux_exact (prec emax : Z) (s : bool) (m : positive) (e : Z) :
  fexp prec emax (Zpos (digits2_pos m) + e) - e <= 0 ->
  binary_round_aux prec emax s (Zpos m) e loc_Exact =
  if e <=? emax - prec then S754_finite s m e else S754_infinity s.
Proof.
  intros H. unfold binary_round_aux.
  rewrite (shr_fexp_exact prec emax (Zpos m) e H). simpl.
  rewrite (shr_fexp_exact prec emax (Zpos m) e H). reflexivity.
Qed.

Lemma valid32_bounds (s : bool) (m : positive) (e : Z) :
  F32.valid (S754_finite s m e) = true ->
  Z.max (Zpos (digits2_pos m) + e - 24) (-149) = e /\ e <= 104.
Proof.
  unfold F32.valid, valid_binary, bounded, canonical_mantissa, fexp, emin,
    F32.prec, F32.emax.
  intros H. apply andb_true_iff in H. destruct H as [H1 H2].
  apply Z.eqb_eq in H1. apply Z.leb_le in H2. split; [exact H1 | lia].
Qed.

(** Promoting a finite [float] to [double] gives a finite [double] of the
    same sign. *)
Lemma F64_of_float_finite (s : bool) (m : positive) (e : Z) :
  F32.valid (S754_finite s m e) = true ->
  exists m' e', F64.of_float (S754_finite s m e) = S754_finite s m' e'.
Proof.
  intros H. apply valid32_bounds in H. destruct H as [Hc He].
  assert (Hd : 0 < Zpos (digits2_pos m)) by lia.
  unfold F64.of_float, F64.prec, F64.emax.
  assert (R : forall b, binary_normalize 53 1024 (cond_Zopp b (Zpos m)) e b =
                        binary_round 53 1024 b m e) by (intros [|]; reflexivity).
  rewrite R. unfold binary_round, shl_align, fexp, emin.
  remember (Z.max (Zpos (digits2_pos m) + e - 53) (3 - 1024 - 53) - e) as d eqn:Ed.
  destruct d as [|p|p]; try lia.
  assert (Hp : Zpos p = 53 - Zpos (digits2_pos m)) by lia.
  rewrite binary_round_aux_exact.
  - replace (Z.max (Zpos (digits2_pos m) + e - 53) (3 - 1024 - 53)
             <=? 1024 - 53) with true by (symmetry; apply Z.leb_le; lia).
    eauto.
  - rewrite digits2_pos_iter_xO. unfold fexp, emin. lia.
Qed.

(** [x != 0.0] is false exactly at the two zeros. *)
Lemma float_nonzero_spec (x : float) :
  F32.valid x = true -> float_nonzero x = negb (is_zero x).
Proof.
  intros H. destruct x as [s|s| |s m e]; try reflexivity.
  - destruct s; reflexivity.
  - destruct (F64_of_float_finite s m e H) as (m' & e' & E).
    unfold float_nonzero, F64.neb. rewrite E. destruct s; reflexivity.
Qed.

Lemma wrap_small (n : Z) : Int.in_range n -> Int.wrap n = n.
Proof.
  unfold Int.in_range, Int.min_signed, Int.max_signed, Int.wrap. intros H.
  rewrite Z.mod_small; lia.
Qed.

(** The cast to [int] discards the fraction: the absolute value of the result
    is the floor of the absolute value. *)
Lemma int_of_float_abs (p : float) (n : Z) :
  floor_of_float (SFabs p) = Some n -> n <= Int.max_signed ->
  Int.abs (int_of_float p) = n.
Proof.
  destruct p as [s|s| |s m e]; cbn [SFabs floor_of_float int_of_float];
    try discriminate.
  - intros E _. injection E as <-. reflexivity.
  - intros E Hn.
    apply (f_equal (fun o => match o with Some v => v | None => 0 end)) in E.
    cbv beta iota in E. unfold signed_mantissa, cond_Zopp in E.
    assert (Hpow : forall q, 0 < 2 ^ Zpos q) by (intros; apply Z.pow_pos_nonneg; lia).
    set (k := match e with
              | Zneg q => Z.quot (signed_mantissa s m) (2 ^ Zpos q)
              | _ => signed_mantissa s m * 2 ^ e
              end).
    assert (Hk : Z.abs k = n /\ 0 <= n).
    { subst k n. unfold signed_mantissa, cond_Zopp.
      destruct e as [|q|q].
      - rewrite Z.pow_0_r. destruct s; split; lia.
      - specialize (Hpow q). destruct s; split; nia.
      - specialize (Hpow q).
        assert (0 <= Z.pos m / 2 ^ Z.pos q) by (apply Z.div_pos; lia).
        destruct s.
        + change (Z.neg m) with (- Z.pos m).
          rewrite Z.quot_opp_l by lia.
          rewrite Z.quot_div_nonneg by lia.
          split; [|lia]. rewrite Z.abs_neq by lia. lia.
        + rewrite Z.quot_div_nonneg by lia.
          split; [|lia]. rewrite Z.abs_eq by lia. lia. }
    destruct Hk as [Hk Hn0]. unfold Int.min_signed, Int.max_signed in *.
    replace ((- 2 ^ 31 <=? k) && (k <=? 2 ^ 31 - 1)) with true
      by (symmetry; apply andb_true_iff; split; apply Z.leb_le; lia).
    unfold Int.abs. rewrite Hk. apply wrap_small.
    unfold Int.in_range, Int.min_signed, Int.max_signed. lia.
Qed.

Lemma floor_abs_nonneg (p : float) (n : Z) :
  floor_of_float (SFabs p) = Some n -> 0 <= n.
Proof.
  destruct p as [s|s| |s m e]; cbn [SFabs floor_of_float]; try discriminate.
  - intros E. apply (f_equal (fun o => match o with Some v => v | None => 0 end)) in E.
    cbv beta iota in E. lia.
  - intros E. apply (f_equal (fun o => match o with Some v => v | None => 0 end)) in E.
    cbv beta iota in E. unfold signed_mantissa, cond_Zopp in E. subst n.
    destruct e as [|q|q].
    + lia.
    + assert (0 < 2 ^ Zpos q) by (apply Z.pow_pos_nonneg; lia). nia.
    + apply Z.div_pos; [lia|]. apply Z.pow_pos_nonneg; lia.
Qed.

(** A division by a divisor that is not zero, of a dividend that is not
    negative, does not fault. *)
Lemma Int_rem_nonneg (n d : Z) :
  0 <= n -> d <> 0 -> Int.rem n d = Some (Z.rem n d).
Proof.
  intros Hn Hd. unfold Int.rem, Int.min_signed.
  replace (d =? 0) with false by (symmetry; apply Z.eqb_neq; exact Hd).
  replace (n =? - 2 ^ 31) with false by (symmetry; apply Z.eqb_neq; lia).
  reflexivity.
Qed.

Lemma texel_coord_floor_abs (f : float) (size n : Z) :
  size <> 0 ->
  floor_of_float (SFabs (f * F32.of_Z size)%f32) = Some n ->
  n <= Int.max_signed ->
  texel_coord f size = Some (Z.rem n size).
Proof.
  intros Hs E Hn. unfold texel_coord.
  rewrite (int_of_float_abs _ E Hn).
  apply Int_rem_nonneg; [exact (floor_abs_nonneg _ E) | exact Hs].
Qed.

(** ** Multiplication by one and addition of zeros *)

Lemma shr_1_23 (m : positive) :
  iter_pos shr_1 23 (Build_shr_record (Zpos (Pos.iter xO m 23)) false false) =
  Build_shr_record (Zpos m) false false.
Proof. reflexivity. Qed.

(** A mantissa shifted left by 23 bits is rounded back to itself. *)
Lemma binary_round_aux_shifted (s : bool) (m : positive) (e : Z) :
  F32.valid (S754_finite s m e) = true ->
  binary_round_aux 24 128 s (Zpos (Pos.iter xO m 23)) (e - 23) loc_Exact =
  S754_finite s m e.
Proof.
  intros H. destruct (valid32_bounds s m e H) as [Hc He].
  unfold binary_round_aux.
  assert (S1 : shr_fexp 24 128 (Zpos (Pos.iter xO m 23)) (e - 23) loc_Exact =
               (Build_shr_record (Zpos m) false false, e)).
  { unfold shr_fexp, shr. cbn [Zdigits2 shr_record_of_loc].
    rewrite digits2_pos_iter_xO. unfold fexp, emin.
    replace (Z.max (Zpos (digits2_pos m) + 23 + (e - 23) - 24) (3 - 128 - 24)
             - (e - 23)) with 23 by lia.
    rewrite shr_1_23. f_equal. lia. }
  rewrite S1. cbn [shr_m loc_of_shr_record shr_r shr_s round_nearest_even].
  rewrite shr_fexp_exact by (cbn [Zdigits2]; unfold fexp, emin; lia).
  cbn [shr_m]. now replace (e <=? 128 - 24) with true
    by (symmetry; apply Z.leb_le; lia).
Qed.

Lemma F32_one_eq : F32.of_Z 1 = S754_finite false 8388608 (-23).
Proof. reflexivity. Qed.

Lemma F32_zero_eq : F32.of_Z 0 = S754_zero false.
Proof. reflexivity. Qed.

Lemma F32_mul_one_l (x : float) :
  finite32 x = true -> (F32.of_Z 1 * x)%f32 = x.
Proof.
  rewrite F32_one_eq. destruct x as [s|s| |s m e]; try discriminate.
  - reflexivity.
  - intros H. unfold F32.mul, SFmul. cbn [xorb].
    change (8388608 * m)%positive with (Pos.iter xO m 23).
    replace (-23 + e) with (e - 23) by lia.
    now apply binary_round_aux_shifted.
Qed.

Lemma F32_mul_one_r (x : float) :
  finite32 x = true -> (x * F32.of_Z 1)%f32 = x.
Proof. intros H. rewrite F32_mul_comm. now apply F32_mul_one_l. Qed.

Lemma F32_mul_zero_l (x : float) :
  finite32 x = true -> is_zero (F32.of_Z 0 * x)%f32 = true.
Proof. destruct x; try discriminate; reflexivity. Qed.

Lemma F32_mul_zero_r (x : float) :
  finite32 x = true -> is_zero (x * F32.of_Z 0)%f32 = true.
Proof. destruct x; try discriminate; reflexivity. Qed.

Lemma F32_add_zeros (a b : float) :
  is_zero a = true -> is_zero b = true -> is_zero (a + b)%f32 = true.
Proof.
  destruct a as [[|]| | |], b as [[|]| | |]; try discriminate; reflexivity.
Qed.

Lemma same_value_refl (x : float) : same_value x x.
Proof. now left. Qed.

Lemma same_value_add_zero_r (a x z : float) :
  same_value a x -> is_zero z = true -> finite32 x = true ->
  same_value (a + z)%f32 x.
Proof.
  intros [-> | [Ha Hx]] Hz Hf.
  - destruct x as [sx| | |], z as [sz| | |]; try discriminate.
    + right. split; [now apply F32_add_zeros | reflexivity].
    + now left.
  - right. split; [now apply F32_add_zeros | assumption].
Qed.

Lemma same_value_zero_add (a x z : float) :
  is_zero z = true -> same_value a x -> finite32 x = true ->
  same_value (z + a)%f32 x.
Proof.
  intros Hz [-> | [Ha Hx]] Hf.
  - destruct x as [sx| | |], z as [sz| | |]; try discriminate.
    + right. split; [now apply F32_add_zeros | reflexivity].
    + now left.
  - right. split; [now apply F32_add_zeros | assumption].
Qed.

Lemma same_value_eqb (a x : float) :
  same_value a x -> finite32 x = true -> F32.eqb a x = true.
Proof.
  intros [-> | [Ha Hx]] Hf.
  - destruct x as [s| | |s m e]; try discriminate; try reflexivity.
    unfold F32.eqb, SFeqb, SFcompare.
    rewrite Z.compare_refl, Pos.compare_cont_refl. now destruct s.
  - destruct a, x; try discriminate; reflexivity.
Qed.

Create HintDb fzero.
#[local] Hint Resolve same_value_refl same_value_add_zero_r
  same_value_zero_add F32_add_zeros F32_mul_zero_l F32_mul_zero_r : fzero.

Ltac split_andb :=
  repeat match goal with
         | H : (_ && _) = true |- _ =>
             apply andb_true_iff in H; destruct H
         | |- (_ && _) = true => apply andb_true_iff; split
         end.

(** ** Rounding never overflows on the slopes of the edges *)

Unset Implicit Arguments.

Lemma digits2_pos_bounds (p : positive) :
  2 ^ (Zpos (digits2_pos p) - 1) <= Zpos p < 2 ^ Zpos (digits2_pos p).
Proof.
  induction p as [p IH|p IH|]; cbn [digits2_pos].
  - rewrite Pos2Z.inj_succ, Z.pow_succ_r by lia.
    replace (Z.succ (Zpos (digits2_pos p)) - 1) with (Z.succ (Zpos (digits2_pos p) - 1)) by lia.
    rewrite Z.pow_succ_r by lia. lia.
  - rewrite Pos2Z.inj_succ, Z.pow_succ_r by lia.
    replace (Z.succ (Zpos (digits2_pos p)) - 1) with (Z.succ (Zpos (digits2_pos p) - 1)) by lia.
    rewrite Z.pow_succ_r by lia. lia.
  - cbn. lia.
Qed.

Lemma Zdigits2_nonneg (m : Z) : 0 <= Zdigits2 m.
Proof. destruct m; cbn; lia. Qed.

Lemma Zdigits2_upper (m : Z) : 0 <= m -> m < 2 ^ Zdigits2 m.
Proof.
  destruct m as [|p|p]; intros H; try lia.
  - cbn. lia.
  - cbn [Zdigits2]. apply digits2_pos_bounds.
Qed.

Lemma Zdigits2_le (m k : Z) : 0 <= k -> 0 <= m < 2 ^ k -> Zdigits2 m <= k.
Proof.
  intros Hk [H0 H]. destruct m as [|p|p]; cbn [Zdigits2]; try lia. pose proof (digits2_pos_bounds p) as [L _].
  destruct (Z_lt_le_dec k (Zpos (digits2_pos p))) as [C|C]; [|lia].
  exfalso. assert (2 ^ k <= 2 ^ (Zpos (digits2_pos p) - 1))
    by (apply Z.pow_le_mono_r; lia). lia.
Qed.

Lemma shr_1_div2 (mrs : shr_record) :
  0 <= shr_m mrs -> shr_m (shr_1 mrs) = shr_m mrs / 2.
Proof.
  destruct mrs as [m r s]. cbn [shr_m]. intros H.
  destruct m as [|[p|p|]|p]; cbn [shr_1 shr_m]; try lia.
  - reflexivity.
  - rewrite Pos2Z.inj_xI. symmetry.
    replace (2 * Zpos p + 1) with (1 + Zpos p * 2) by lia.
    rewrite Z.div_add by lia. reflexivity.
  - rewrite Pos2Z.inj_xO. symmetry. rewrite Z.mul_comm. apply Z.div_mul. lia.
  - reflexivity.
Qed.

Lemma iter_shr_1 (n : positive) (mrs : shr_record) :
  0 <= shr_m mrs ->
  shr_m (iter_pos shr_1 n mrs) = shr_m mrs / 2 ^ Zpos n.
Proof.
  revert mrs. induction n as [n IH|n IH|]; intros mrs H; cbn [iter_pos].
  - assert (H1 : 0 <= shr_m (shr_1 mrs))
      by (rewrite shr_1_div2 by lia; apply Z.div_pos; lia).
    assert (P : 0 < 2 ^ Zpos n) by (apply Z.pow_pos_nonneg; lia).
    rewrite IH; rewrite IH; try lia.
    + rewrite shr_1_div2 by lia. rewrite !Z.div_div by lia.
      f_equal.
      replace (Z.pos n~1) with (Z.pos n + Z.pos n + 1) by lia.
      rewrite Z.pow_add_r, Z.pow_add_r by lia. lia.
    + apply Z.div_pos; lia.
  - assert (P : 0 < 2 ^ Zpos n) by (apply Z.pow_pos_nonneg; lia).
    rewrite IH; rewrite IH; try lia.
    + rewrite !Z.div_div by lia. f_equal.
      replace (Z.pos n~0) with (Z.pos n + Z.pos n) by lia.
      rewrite Z.pow_add_r by lia. lia.
    + apply Z.div_pos; lia.
  - rewrite shr_1_div2 by lia. reflexivity.
Qed.

Lemma shr_record_of_loc_m (m : Z) (l : location) :
  shr_m (shr_record_of_loc m l) = m.
Proof. destruct l as [|[ | | ]]; reflexivity. Qed.

Lemma fexp_ge (prec emax k : Z) : k - prec <= fexp prec emax k.
Proof. unfold fexp. lia. Qed.

Lemma fexp_emin (prec emax k : Z) : emin prec emax <= fexp prec emax k.
Proof. unfold fexp. lia. Qed.

(** What the right shift to the exponent of the format leaves. *)
Lemma shr_fexp_facts (prec emax m e : Z) (l : location) :
  0 <= prec -> 0 <= m ->
  let r := shr_fexp prec emax m e l in
  0 <= shr_m (fst r) <= m /\
  shr_m (fst r) < 2 ^ prec /\
  snd r = Z.max e (fexp prec emax (Zdigits2 m + e)) /\
  (0 < m -> fexp prec emax (Zdigits2 m + e) < Zdigits2 m + e ->
   0 < shr_m (fst r)).
Proof.
  intros Hp Hm. unfold shr_fexp, shr.
  pose proof (fexp_ge prec emax (Zdigits2 m + e)) as Hf.
  pose proof (Zdigits2_upper m Hm) as Hu.
  pose proof (Zdigits2_nonneg m) as Hd.
  assert (Small : fexp prec emax (Zdigits2 m + e) - e <= 0 -> m < 2 ^ prec).
  { intros Hn. apply Z.lt_le_trans with (1 := Hu).
    apply Z.pow_le_mono_r; lia. }
  destruct (fexp prec emax (Zdigits2 m + e) - e) as [|n|n] eqn:En;
    cbn [fst snd]; rewrite ?shr_record_of_loc_m.
  - repeat split; try lia; apply Small; lia.
  - assert (P : 0 < 2 ^ Zpos n) by (apply Z.pow_pos_nonneg; lia).
    rewrite iter_shr_1 by (rewrite shr_record_of_loc_m; lia).
    rewrite shr_record_of_loc_m.
    repeat split; try lia.
    + apply Z.div_pos; lia.
    + apply Z.div_le_upper_bound; nia.
    + apply Z.div_lt_upper_bound; [lia|].
      apply Z.lt_le_trans with (1 := Hu).
      rewrite <- Z.pow_add_r by lia. apply Z.pow_le_mono_r; lia.
    + intros Hpos Hlt. apply Z.div_str_pos. split; [lia|].
      destruct m as [|p|p]; try lia. cbn [Zdigits2] in *.
      pose proof (digits2_pos_bounds p) as [L _].
      apply Z.le_trans with (2 := L). apply Z.pow_le_mono_r; lia.
  - repeat split; try lia; apply Small; lia.
Qed.

Lemma round_nearest_even_bounds (m : Z) (l : location) :
  m <= round_nearest_even m l <= m + 1.
Proof.
  destruct l as [|[ | | ]]; cbn [round_nearest_even]; try lia.
  destruct (Z.even m); lia.
Qed.

(** The result of rounding a non-negative mantissa, when the exponent stays
    below that of the infinities. *)
Lemma binary_round_aux_cases (prec emax : Z) (s : bool) (m e : Z) (l : location) :
  0 < prec -> 0 <= m ->
  Z.max e (fexp prec emax (Zdigits2 m + e)) + 1 <= emax - prec ->
  match binary_round_aux prec emax s m e l with
  | S754_zero _ => ~ (0 < m /\ emin prec emax < e)
  | S754_finite s' m' e' =>
      s' = s /\ e <= e' <= Z.max e (fexp prec emax (Zdigits2 m + e)) + 1 /\
      Zpos m' <= 2 ^ prec
  | _ => False
  end.
Proof.
  intros Hp Hm HE. unfold binary_round_aux.
  pose proof (shr_fexp_facts prec emax m e l (Z.lt_le_incl _ _ Hp) Hm) as F1.
  destruct (shr_fexp prec emax m e l) as [mrs' e']. cbn [fst snd] in F1.
  destruct F1 as ([A1 A2] & A3 & A4 & A5).
  pose proof (round_nearest_even_bounds (shr_m mrs') (loc_of_shr_record mrs'))
    as R.
  set (m2 := round_nearest_even (shr_m mrs') (loc_of_shr_record mrs')) in *.
  assert (Hm2 : 0 <= m2) by lia.
  pose proof (shr_fexp_facts prec emax m2 e' loc_Exact (Z.lt_le_incl _ _ Hp) Hm2)
    as F2.
  destruct (shr_fexp prec emax m2 e' loc_Exact) as [mrs'' e'']. cbn [fst snd] in F2.
  destruct F2 as ([B1 B2] & B3 & B4 & B5).
  assert (D2 : Zdigits2 m2 <= prec + 1).
  { apply Zdigits2_le; [lia|]. split; [lia|].
    rewrite Z.pow_add_r, Z.pow_1_r by lia. lia. }
  pose proof (fexp_emin prec emax (Zdigits2 m + e)) as G1.
  assert (G2 : fexp prec emax (Zdigits2 m2 + e') <= e' + 1)
    by (unfold fexp in *; lia).
  destruct (shr_m mrs'') as [|p|p] eqn:Em; try lia.
  - intros [Hpos Hmin].
    pose proof (Zdigits2_nonneg m).
    assert (0 < shr_m mrs').
    { apply A5; [lia|]. unfold fexp. 
      destruct m as [|q|q]; cbn [Zdigits2] in *; lia. }
    assert (0 < m2) by lia.
    apply (Z.lt_irrefl 0). apply B5; [lia|]. unfold fexp.
    unfold fexp in A4.
    destruct m2 as [|q|q]; cbn [Zdigits2] in *; lia.
  - replace (e'' <=? emax - prec) with true
      by (symmetry; apply Z.leb_le; lia).
    repeat split; lia.
Qed.

(** Integers of 32 bits convert to zero or to a finite float of moderate
    exponent. *)
Lemma of_Z_cases (n : Z) :
  - 2 ^ 31 <= n <= 2 ^ 31 ->
  match F32.of_Z n with
  | S754_zero _ => n = 0
  | S754_finite _ m e => -23 <= e <= 9 /\ Zpos m <= 2 ^ 24
  | _ => False
  end.
Proof.
  intros Hn. unfold F32.of_Z, binary_normalize.
  assert (G : forall s p, Zpos p <= 2 ^ 31 ->
     match binary_round F32.prec F32.emax s p 0 with
     | S754_zero _ => False
     | S754_finite _ m e => -23 <= e <= 9 /\ Zpos m <= 2 ^ 24
     | _ => False
     end).
  { intros s p Hp. unfold binary_round, shl_align, F32.prec, F32.emax.
    pose proof (digits2_pos_bounds p) as [L U].
    assert (D : Zpos (digits2_pos p) <= 32).
    { apply (Zdigits2_le (Zpos p) 32); lia. }
    assert (Fin : forall mz ez,
      Zpos (digits2_pos mz) + ez = Zpos (digits2_pos p) -> -23 <= ez <= 0 ->
      match binary_round_aux 24 128 s (Zpos mz) ez loc_Exact with
      | S754_zero _ => False
      | S754_finite _ m e => -23 <= e <= 9 /\ Zpos m <= 2 ^ 24
      | _ => False
      end).
    { intros mz ez Hd He.
      pose proof (binary_round_aux_cases 24 128 s (Zpos mz) ez loc_Exact) as C.
      cbn [Zdigits2] in C. rewrite Hd in C. unfold fexp, emin in C.
      specialize (C ltac:(lia) ltac:(lia) ltac:(lia)).
      destruct (binary_round_aux 24 128 s (Zpos mz) ez loc_Exact);
        try exact C.
      - apply C. lia.
      - destruct C as (_ & C1 & C2). lia. }
    unfold fexp, emin.
    destruct (Z.max (Zpos (digits2_pos p) + 0 - 24) (3 - 128 - 24) - 0)
      as [|d|d] eqn:Ed.
    - apply Fin; lia.
    - apply Fin; lia.
    - apply Fin; [rewrite digits2_pos_iter_xO|]; lia. }
  destruct n as [|p|p].
  - reflexivity.
  - specialize (G false p ltac:(lia)).
    destruct (binary_round F32.prec F32.emax false p 0); tauto.
  - specialize (G true p ltac:(lia)).
    destruct (binary_round F32.prec F32.emax true p 0); tauto.
Qed.

Lemma div_eucl_fst (a b : Z) : fst (Z.div_eucl a b) = a / b.
Proof. reflexivity. Qed.

(** The quotient of two finite floats of moderate exponent is zero or
    finite. *)
Lemma F32_div_finite (s1 s2 : bool) (m1 m2 : positive) (e1 e2 : Z) :
  -23 <= e1 <= 9 -> Zpos m1 <= 2 ^ 24 ->
  -23 <= e2 <= 9 -> Zpos m2 <= 2 ^ 24 ->
  finite_or_zero (S754_finite s1 m1 e1 / S754_finite s2 m2 e2)%f32 = true.
Proof.
  intros He1 Hm1 He2 Hm2.
  unfold F32.div, SFdiv, SFdiv_core_binary, F32.prec, F32.emax.
  cbn [Zdigits2].
  set (d1 := Zpos (digits2_pos m1)). set (d2 := Zpos (digits2_pos m2)).
  assert (Hd1 : 0 < d1 <= 25).
  { subst d1. split; [lia|]. apply (Zdigits2_le (Zpos m1) 25); [lia|].
    split; [lia|]. apply Z.le_lt_trans with (1 := Hm1).
    apply Z.pow_lt_mono_r; lia. }
  assert (Hd2 : 0 < d2) by (subst d2; lia).
  set (e' := Z.min (fexp 24 128 (d1 + e1 - (d2 + e2))) (e1 - e2)).
  set (sh := e1 - e2 - e').
  set (m' := match sh with
             | 0 => Zpos m1
             | Zpos _ => Z.shiftl (Zpos m1) sh
             | Zneg _ => 0
             end).
  assert (Hsh : 0 <= sh) by (subst sh e'; lia).
  assert (Hm' : 0 <= m' < 2 ^ (d1 + sh)).
  { pose proof (digits2_pos_bounds m1) as [_ U]. fold d1 in U.
    subst m'. destruct sh as [|q|q] eqn:Es; try lia.
    - rewrite Z.add_0_r. lia.
    - rewrite Z.shiftl_mul_pow2 by lia. rewrite Z.pow_add_r by lia.
      assert (0 < 2 ^ Zpos q) by (apply Z.pow_pos_nonneg; lia). nia. }
  pose proof (div_eucl_fst m' (Zpos m2)) as Hq.
  destruct (Z.div_eucl m' (Zpos m2)) as [q r]. cbn [fst] in Hq.
  assert (Q : 0 <= q <= m').
  { subst q. split; [apply Z.div_pos; lia|].
    apply Z.div_le_upper_bound; [lia|]. nia. }
  assert (Dq : Zdigits2 q <= d1 + sh) by (apply Zdigits2_le; lia).
  pose proof (Zdigits2_nonneg q) as Dq0.
  pose proof (binary_round_aux_cases 24 128 (xorb s1 s2) q e'
                (new_location (Zpos m2) r)) as C.
  assert (He' : e' <= e1 - e2) by (subst e'; lia).
  assert (He'' : 3 - 128 - 24 <= e')
    by (subst e'; unfold fexp, emin; lia).
  unfold fexp, emin in C.
  specialize (C ltac:(lia) ltac:(lia) ltac:(subst sh; lia)).
  destruct (binary_round_aux 24 128 (xorb s1 s2) q e'
              (new_location (Zpos m2) r)); try reflexivity; contradiction.
Qed.

Set Implicit Arguments.

Lemma int_of_float_add_zero (r z : float) :
  is_zero z = true -> int_of_float (r + z)%f32 = int_of_float r.
Proof.
  destruct z as [sz| | |]; try discriminate. intros _.
  destruct r as [[|]| | |]; destruct sz; reflexivity.
Qed.

Lemma zero_mul_finite (s : float) :
  finite_or_zero s = true -> is_zero (F32.of_Z 0 * s)%f32 = true.
Proof. destruct s; try discriminate; reflexivity. Qed.

(** ** Facts on integers, loops and the sort *)

Lemma Int_sub_diag (y : Z) : Int.sub y y = 0.
Proof. unfold Int.sub. rewrite Z.sub_diag. reflexivity. Qed.

Lemma gtb_irrefl (y : Z) : (y >? y) = false.
Proof. rewrite Z.gtb_ltb. apply Z.ltb_irrefl. Qed.

Lemma sort_by_y_level (A : Type) (y : Z) (a0 a1 a2 : A) :
  sort_by_y y a0 y a1 y a2 = ((y, a0), (y, a1), (y, a2)).
Proof. unfold sort_by_y. now rewrite !gtb_irrefl. Qed.


Lemma range_snoc (lo hi : Z) :
  lo <= hi -> range lo (hi + 1) = range lo hi ++ [hi].
Proof.
  intros H. unfold range.
  replace (Z.to_nat (hi + 1 - lo)) with (S (Z.to_nat (hi - lo))) by lia.
  rewrite seq_S, map_app. cbn [map Nat.add]. do 2 f_equal. lia.
Qed.

Lemma range_cons (lo hi : Z) :
  lo < hi -> range lo hi = lo :: range (lo + 1) hi.
Proof.
  intros H. unfold range.
  replace (Z.to_nat (hi - lo)) with (S (Z.to_nat (hi - (lo + 1)))) by lia.
  cbn [seq map]. rewrite <- seq_shift, map_map. f_equal; [lia|].
  apply map_ext. intros i. lia.
Qed.

Lemma Int_sub_lt (a b : Z) :
  Int.in_range a -> Int.in_range b -> a < b -> (Int.sub b a =? 0) = false.
Proof.
  unfold Int.in_range, Int.min_signed, Int.max_signed, Int.sub, Int.wrap.
  intros Ha Hb Hab. apply Z.eqb_neq.
  destruct (Z_lt_le_dec (b - a + 2 ^ 31) (2 ^ 32)) as [Hs|Hs].
  - rewrite Z.mod_small by lia. lia.
  - replace (b - a + 2 ^ 31) with (b - a - 2 ^ 31 + 1 * 2 ^ 32) by lia.
    rewrite Z_mod_plus_full, Z.mod_small by lia. lia.
Qed.

Lemma sort_by_y_map (A B : Type) (f : A -> B)
    (y0 : Z) (a0 : A) (y1 : Z) (a1 : A) (y2 : Z) (a2 : A) :
  sort_by_y y0 (f a0) y1 (f a1) y2 (f a2) =
  let '((Y0, b0), (Y1, b1), (Y2, b2)) := sort_by_y y0 a0 y1 a1 y2 a2 in
  ((Y0, f b0), (Y1, f b1), (Y2, f b2)).
Proof.
  unfold sort_by_y.
  repeat match goal with
         | |- context [if ?c then _ else _] => destruct c
         end; reflexivity.
Qed.

(** The sort leaves the y of the vertices in ascending order. *)
Lemma sort_by_y_ascending (A : Type)
    (y0 : Z) (a0 : A) (y1 : Z) (a1 : A) (y2 : Z) (a2 : A) :
  let '((Y0, _), (Y1, _), (Y2, _)) := sort_by_y y0 a0 y1 a1 y2 a2 in
  Y0 <= Y1 <= Y2.
Proof.
  unfold sort_by_y.
  destruct (y0 >? y1) eqn:E1.
  - destruct (y0 >? y2) eqn:E2.
    + destruct (y1 >? y2) eqn:E3; lia.
    + destruct (y1 >? y0) eqn:E3; lia.
  - destruct (y1 >? y2) eqn:E2.
    + destruct (y0 >? y2) eqn:E3; lia.
    + destruct (y0 >? y1) eqn:E3; lia.
Qed.

Lemma wrap_in_range (n : Z) : Int.in_range (Int.wrap n).
Proof.
  unfold Int.in_range, Int.wrap, Int.min_signed, Int.max_signed.
  pose proof (Z.mod_pos_bound (n + 2 ^ 31) (2 ^ 32)). lia.
Qed.

Lemma Int_abs_nonzero (n : Z) : Int.in_range n -> n <> 0 -> Int.abs n <> 0.
Proof.
  unfold Int.in_range, Int.min_signed, Int.max_signed, Int.abs, Int.wrap.
  intros Hn H0.
  destruct (Z.eq_dec (Z.abs n) (2 ^ 31)) as [E|E].
  - rewrite E. discriminate.
  - rewrite Z.mod_small by lia. lia.
Qed.

(** The inverse slope of an edge that is not level is zero or finite. *)
Lemma slope_of_finite (dx dy : Z) :
  Int.in_range dx -> Int.in_range dy -> dy <> 0 ->
  finite_or_zero (slope_of dx dy) = true.
Proof.
  unfold Int.in_range, Int.min_signed, Int.max_signed. intros Hx Hy H0.
  pose proof (wrap_in_range (Z.abs dy)) as Ha. fold (Int.abs dy) in Ha.
  unfold Int.in_range, Int.min_signed, Int.max_signed in Ha.
  pose proof (Int_abs_nonzero Hy H0) as Hnz.
  pose proof (of_Z_cases dx ltac:(lia)) as Cx.
  pose proof (of_Z_cases (Int.abs dy) ltac:(lia)) as Cy.
  unfold slope_of.
  destruct (F32.of_Z (Int.abs dy)) as [s2| | |s2 m2 e2]; try contradiction.
  destruct (F32.of_Z dx) as [s1| | |s1 m1 e1]; try contradiction.
  - reflexivity.
  - apply F32_div_finite; tauto.
Qed.

(** On the row of the middle vertex the bounds do not depend on the first
    slope, which is multiplied by [y - y1 = 0]. *)
Lemma scan_bounds_middle (x0 y0 x1 y1 : Z) (s1 t1 s2 : float) :
  finite_or_zero s1 = true -> finite_or_zero t1 = true ->
  scan_bounds x0 y0 x1 y1 s1 s2 y1 = scan_bounds x0 y0 x1 y1 t1 s2 y1.
Proof.
  intros Hs Ht. unfold scan_bounds. rewrite Int_sub_diag.
  rewrite (int_of_float_add_zero _ _ (zero_mul_finite _ Hs)).
  rewrite (int_of_float_add_zero _ _ (zero_mul_finite _ Ht)).
  reflexivity.
Qed.

Lemma middle_bounds (x0 y0 x1 y1 x2 y2 : Z) :
  Int.in_range y0 -> Int.in_range y1 -> Int.in_range y2 ->
  y0 < y1 -> y1 < y2 ->
  scan_bounds x0 y0 x1 y1 (fst (upper_slopes x0 y0 x1 y1 x2 y2))
    (snd (upper_slopes x0 y0 x1 y1 x2 y2)) y1 =
  scan_bounds x0 y0 x1 y1 (fst (lower_slopes x0 y0 x1 y1 x2 y2))
    (snd (lower_slopes x0 y0 x1 y1 x2 y2)) y1.
Proof.
  intros R0 R1 R2 H01 H12. unfold upper_slopes, lower_slopes.
  rewrite (Int_sub_lt R0 R1 H01), (Int_sub_lt R1 R2 H12). cbn [negb fst snd].
  apply scan_bounds_middle; apply slope_of_finite;
    try apply wrap_in_range; apply Z.eqb_neq; now apply Int_sub_lt.
Qed.

(** ** Transform algebra *)

(** C5. [mat4_mul_vec4_project P v] computes [r = mat4_mul_vec4 P v] and
    returns [r] itself, undivided, when [r.w] is a zero, and otherwise [r]
    with x, y and z divided by [r.w] and w unchanged.  The function is
    total: no input makes it fail. *)
Theorem mat4_mul_vec4_project_spec (P : mat4_t) (v : vec4_t) :
  let r := mat4_mul_vec4 P v in
  F32.valid (vec4_w r) = true ->
  mat4_mul_vec4_project P v = if is_zero (vec4_w r) then r else divided_by_w r.
Proof.
  intros r H. unfold mat4_mul_vec4_project. fold r.
  rewrite (float_nonzero_spec (vec4_w r) H).
  destruct (is_zero (vec4_w r)); reflexivity.
Qed.

Lemma mat4_mul_vec4_project_spec_witness :
  F32.valid (vec4_w (mat4_mul_vec4 mat4_identity (vec4_of_ints 2 4 6 2))) = true /\
  mat4_mul_vec4_project mat4_identity (vec4_of_ints 2 4 6 2) =
    vec4_of_ints 1 2 3 2.
Proof.
  split; [reflexivity |].
  exact (mat4_mul_vec4_project_spec mat4_identity (vec4_of_ints 2 4 6 2)
           eq_refl).
Defined.

(** C7. The constructors of the affine transforms (identity, scale,
    translation, the three rotations and look-at) return a matrix whose bottom
    row is [0,0,0,1], whatever their arguments; the perspective constructor
    returns one whose bottom row is [0,0,1,0]. *)
Theorem bottom_row_of_constructors :
  bottom_row mat4_identity = row_of_ints 0 0 0 1 /\
  (forall sx sy sz, bottom_row (mat4_make_scale sx sy sz) = row_of_ints 0 0 0 1) /\
  (forall tx ty tz,
     bottom_row (mat4_make_translation tx ty tz) = row_of_ints 0 0 0 1) /\
  (forall cos sin angle,
     bottom_row (mat4_make_rotation_x cos sin angle) = row_of_ints 0 0 0 1) /\
  (forall cos sin angle,
     bottom_row (mat4_make_rotation_y cos sin angle) = row_of_ints 0 0 0 1) /\
  (forall cos sin angle,
     bottom_row (mat4_make_rotation_z cos sin angle) = row_of_ints 0 0 0 1) /\
  (forall vec3_sub vec3_normalize vec3_cross vec3_dot eye target up,
     bottom_row (mat4_look_at vec3_sub vec3_normalize vec3_cross vec3_dot
                   eye target up) = row_of_ints 0 0 0 1) /\
  (forall tan fov aspect_ratio znear zfar,
     bottom_row (mat4_make_perspective tan fov aspect_ratio znear zfar) =
     row_of_ints 0 0 1 0).
Proof.
  repeat split; intros; reflexivity.
Qed.

(** ** The identity matrix *)

(** Every entry of [result] is assigned: its initial content is forgotten. *)
Lemma mat4_mul_mat4_from_any (junk a b : mat4_t) :
  mat4_mul_mat4_from junk a b = mat4_mul_mat4 a b.
Proof. destruct junk as [[] [] [] []]. reflexivity. Qed.

(** One entry of a product with the identity: a sum of one term [x * 1] (or
    [1 * x]) and three terms with a factor [0]. *)
Ltac identity_entry :=
  apply same_value_eqb; [|assumption];
  rewrite ?F32_mul_one_l, ?F32_mul_one_r by assumption;
  auto 8 with fzero.

Lemma identity_mul_vec4 (v : vec4_t) :
  finite_vec4 v = true -> vec4_eqb (mat4_mul_vec4 mat4_identity v) v = true.
Proof.
  destruct v as [x y z w]. unfold finite_vec4, vec4_eqb.
  cbv [mat4_mul_vec4 mat4_identity row_of_ints mat_get mat_row row_get
       r0 r1 r2 r3 c0 c1 c2 c3 vec4_x vec4_y vec4_z vec4_w].
  intros H. split_andb; identity_entry.
Qed.

Ltac unfold_product :=
  cbv [mat4_mul_mat4 mat4_mul_mat4_from fold_left all_idx mat_set row_set
       mat4_zero mat4_identity row_of_ints mat_get mat_row row_get
       r0 r1 r2 r3 c0 c1 c2 c3].

Lemma mul_identity_r (a : mat4_t) :
  finite_mat4 a = true -> mat4_eqb (mat4_mul_mat4 a mat4_identity) a = true.
Proof.
  destruct a as [[a00 a01 a02 a03] [a10 a11 a12 a13]
                 [a20 a21 a22 a23] [a30 a31 a32 a33]].
  unfold finite_mat4, finite_row, mat4_eqb, row_eqb. unfold_product.
  intros H. split_andb; identity_entry.
Qed.

Lemma mul_identity_l (a : mat4_t) :
  finite_mat4 a = true -> mat4_eqb (mat4_mul_mat4 mat4_identity a) a = true.
Proof.
  destruct a as [[a00 a01 a02 a03] [a10 a11 a12 a13]
                 [a20 a21 a22 a23] [a30 a31 a32 a33]].
  unfold finite_mat4, finite_row, mat4_eqb, row_eqb. unfold_product.
  intros H. split_andb; identity_entry.
Qed.

(** A vector with an infinite x is not preserved: the zeros of the identity
    multiply the infinity into NaN in the other components.  Likewise for the
    scaling by (infinity, 1, 1), on either side of the identity. *)
Lemma identity_not_neutral :
  let v := mk_vec4 infinity (F32.of_Z 0) (F32.of_Z 0) (F32.of_Z 0) in
  let a := mat4_make_scale infinity (F32.of_Z 1) (F32.of_Z 1) in
  mat4_mul_vec4 mat4_identity v = mk_vec4 infinity S754_nan S754_nan S754_nan /\
  vec4_eqb (mat4_mul_vec4 mat4_identity v) v = false /\
  mat4_eqb (mat4_mul_mat4 a mat4_identity) a = false /\
  mat4_eqb (mat4_mul_mat4 mat4_identity a) a = false.
Proof. vm_compute. repeat split. Qed.

(** C8, amended.  The identity matrix is neutral on finite values: for a
    vector [v] and a matrix [a] without infinity or NaN among their
    components, [mat4_mul_vec4 (mat4_identity, v) == v],
    [mat4_mul_mat4 (a, mat4_identity) == a] and
    [mat4_mul_mat4 (mat4_identity, a) == a], component by component with the
    [==] of C. *)
Theorem identity_neutral_on_finite (v : vec4_t) (a : mat4_t) :
  finite_vec4 v = true -> finite_mat4 a = true ->
  vec4_eqb (mat4_mul_vec4 mat4_identity v) v = true /\
  mat4_eqb (mat4_mul_mat4 a mat4_identity) a = true /\
  mat4_eqb (mat4_mul_mat4 mat4_identity a) a = true.
Proof.
  intros Hv Ha. split; [|split].
  - now apply identity_mul_vec4.
  - now apply mul_identity_r.
  - now apply mul_identity_l.
Qed.

Lemma identity_neutral_on_finite_witness :
  let v := mk_vec4 (ratio 1 3) (ratio (-7) 2) (S754_zero true) (F32.of_Z 5) in
  let a := mat4_make_translation (ratio 1 3) (F32.of_Z (-2)) (ratio 5 7) in
  finite_vec4 v = true /\ finite_mat4 a = true /\
  vec4_eqb (mat4_mul_vec4 mat4_identity v) v = true /\
  mat4_eqb (mat4_mul_mat4 a mat4_identity) a = true /\
  mat4_eqb (mat4_mul_mat4 mat4_identity a) a = true.
Proof.
  split; [reflexivity | split; [reflexivity |]].
  exact (identity_neutral_on_finite
           (mk_vec4 (ratio 1 3) (ratio (-7) 2) (S754_zero true) (F32.of_Z 5))
           (mat4_make_translation (ratio 1 3) (F32.of_Z (-2)) (ratio 5 7))
           eq_refl eq_refl).
Defined.

(** ** The perspective matrix *)

(** With fov = 1.25 and aspect_ratio = 0x3F9EC715 (about 1.2404505), the
    entry [m[0][0]] is 14422561 * 2^-23, one unit in the last place above
    the rounded quotient 14422560 * 2^-23: the reciprocal is rounded before
    the product is. *)
Lemma perspective_00_not_quotient :
  let fov := ratio 5 4 in
  let aspect_ratio := S754_finite false 10405653 (-23) in
  F64.of_float (fov / F32.of_Z 2)%f32 = (F64.of_Z 5 / F64.of_Z 8)%f64 /\
  (mat4_make_perspective tan_at_0625 fov aspect_ratio
     (F32.of_Z 1) (F32.of_Z 100)).[I0,I0] =
    S754_finite false 14422561 (-23) /\
  spec_perspective_00 tan_at_0625 fov aspect_ratio =
    S754_finite false 14422560 (-23) /\
  F32.eqb
    (mat4_make_perspective tan_at_0625 fov aspect_ratio
       (F32.of_Z 1) (F32.of_Z 100)).[I0,I0]
    (spec_perspective_00 tan_at_0625 fov aspect_ratio) = false.
Proof. vm_compute. repeat split. Qed.

(** C4, amended.  The perspective matrix has
    [m[0][0] = aspect_ratio * (1 / tan(fov/2))],
    [m[1][1] = 1 / tan(fov/2)], [m[2][2] = zfar / (zfar - znear)],
    [m[2][3] = (-zfar * znear) / (zfar - znear)], [m[3][2] = 1] and zero
    everywhere else, whatever [tan] and the arguments are. *)
Theorem mat4_make_perspective_entries (tan : double -> double)
    (fov aspect_ratio znear zfar : float) :
  mat4_make_perspective tan fov aspect_ratio znear zfar =
  mk_mat4
    (mk_row4 (perspective_00 tan fov aspect_ratio)
             (F32.of_Z 0) (F32.of_Z 0) (F32.of_Z 0))
    (mk_row4 (F32.of_Z 0) (F32.of_float (F64.of_Z 1 / tan_half tan fov)%f64)
             (F32.of_Z 0) (F32.of_Z 0))
    (mk_row4 (F32.of_Z 0) (F32.of_Z 0) (zfar / (zfar - znear))%f32
             ((- zfar * znear) / (zfar - znear))%f32)
    (mk_row4 (F32.of_Z 0) (F32.of_Z 0) (F32.of_Z 1) (F32.of_Z 0)).
Proof. reflexivity. Qed.

(** ** Barycentric weights *)

(** For the triangle a = (0,0), b = (1,0), c = (0,1) and the query point
    p = b, the function returns the weights (0, 1, 0) of the vertex b, while
    the formulas of the specification give beta = -1 and gamma = 2. *)
Lemma barycentric_weights_not_spec :
  let a := vec2_of_ints 0 0 in
  let b := vec2_of_ints 1 0 in
  let c := vec2_of_ints 0 1 in
  vec3_y (barycentric_weights a b c b) = F32.of_Z 1 /\
  vec3_y (spec_barycentric_weights a b c b) = F32.of_Z (-1) /\
  vec3_z (spec_barycentric_weights a b c b) = F32.of_Z 2 /\
  barycentric_weights a b c b <> spec_barycentric_weights a b c b.
Proof.
  vm_compute. repeat split; try reflexivity. discriminate.
Qed.

(** C1, amended.  [barycentric_weights a b c p] returns
    [area_abc = cross(b-a, c-a)], [alpha = cross(c-b, p-b) / area_abc],
    [beta = cross(p-a, c-a) / area_abc] (the arguments of the cross product
    in the other order than the specification has them) and
    [gamma = 1 - alpha - beta]. *)
Theorem barycentric_weights_formulas (a b c p : vec2_t) :
  let area_abc := cross (vec2_sub b a) (vec2_sub c a) in
  let alpha := (cross (vec2_sub c b) (vec2_sub p b) / area_abc)%f32 in
  let beta := (cross (vec2_sub p a) (vec2_sub c a) / area_abc)%f32 in
  let gamma := (F32.of_Z 1 - alpha - beta)%f32 in
  barycentric_weights a b c p = mk_vec3 alpha beta gamma.
Proof.
  unfold barycentric_weights, cross. cbv zeta.
  rewrite (F32_mul_comm (vec2_x (vec2_sub p b)) (vec2_y (vec2_sub c b))).
  rewrite (F32_mul_comm (vec2_x (vec2_sub c a)) (vec2_y (vec2_sub p a))).
  reflexivity.
Qed.

(** ** The pixel routines *)

(** The weights that [barycentric_weights] returns for a pixel are those of
    the formulas. *)
Lemma barycentric_weights_at (point_a point_b point_c : vec4_t) (x y : Z) :
  barycentric_weights (vec2_from_vec4 point_a) (vec2_from_vec4 point_b)
    (vec2_from_vec4 point_c) (mk_vec2 (F32.of_Z x) (F32.of_Z y)) =
  let '(alpha, beta, gamma) := weights_at point_a point_b point_c x y in
  mk_vec3 alpha beta gamma.
Proof.
  unfold barycentric_weights, weights_at, vec2_sub, vec2_from_vec4.
  cbn [vec2_x vec2_y].
  rewrite (F32_mul_comm (F32.of_Z x - vec4_x point_b)%f32
             (vec4_y point_c - vec4_y point_b)%f32).
  rewrite (F32_mul_comm (vec4_x point_c - vec4_x point_a)%f32
             (F32.of_Z y - vec4_y point_a)%f32).
  reflexivity.
Qed.

Lemma one_minus_inverted (f : float) : one_minus f = inverted f.
Proof. reflexivity. Qed.

Lemma interpolate_reciprocal_w_at (point_a point_b point_c : vec4_t) (x y : Z) :
  interpolate_reciprocal_w point_a point_b point_c
    (barycentric_weights (vec2_from_vec4 point_a) (vec2_from_vec4 point_b)
       (vec2_from_vec4 point_c) (mk_vec2 (F32.of_Z x) (F32.of_Z y))) =
  reciprocal_w_at point_a point_b point_c x y.
Proof.
  rewrite barycentric_weights_at. unfold reciprocal_w_at.
  destruct (weights_at point_a point_b point_c x y) as [[alpha beta] gamma].
  reflexivity.
Qed.

Lemma interpolate_attribute_at (point_a point_b point_c : vec4_t) (x y : Z)
    (attr_a attr_b attr_c : float) :
  interpolate_attribute point_a point_b point_c
    (barycentric_weights (vec2_from_vec4 point_a) (vec2_from_vec4 point_b)
       (vec2_from_vec4 point_c) (mk_vec2 (F32.of_Z x) (F32.of_Z y)))
    attr_a attr_b attr_c =
  attribute_at point_a point_b point_c x y attr_a attr_b attr_c.
Proof.
  unfold interpolate_attribute. rewrite interpolate_reciprocal_w_at.
  rewrite barycentric_weights_at. unfold attribute_at.
  destruct (weights_at point_a point_b point_c x y) as [[alpha beta] gamma].
  reflexivity.
Qed.

Lemma texel_coord_faults (f : float) (size : Z) :
  division_faults (Int.abs (int_of_float (f * F32.of_Z size)%f32)) size =
  match texel_coord f size with
  | None => true
  | Some _ => false
  end.
Proof.
  unfold texel_coord, Int.rem, division_faults.
  now destruct (_ || _).
Qed.

Section PixelRoutines.
Variable display : Type.
Variable get_zbuffer_at : display -> Z -> Z -> float.
Variable set_zbuffer_at : display -> Z -> Z -> float -> display.
Variable draw_pixel : display -> Z -> Z -> Z -> display.
Variable upng_t : Type.
Variable upng_get_width : upng_t -> Z.
Variable upng_get_height : upng_t -> Z.
Variable upng_get_buffer : upng_t -> Z -> Z.



(** [draw_triangle_pixel] is a depth test on the metric that draws
    [color]. *)
Lemma draw_triangle_pixel_tested (x y color : Z)
    (point_a point_b point_c : vec4_t) (w : world display) :
  draw_triangle_pixel get_zbuffer_at set_zbuffer_at draw_pixel
    x y color point_a point_b point_c w =
  tested_pixel get_zbuffer_at set_zbuffer_at draw_pixel
    (spec_depth_metric point_a point_b point_c) (fun _ _ => color) x y w.
Proof.
  unfold draw_triangle_pixel, tested_pixel, spec_depth_metric.
  cbv zeta. rewrite interpolate_reciprocal_w_at, one_minus_inverted.
  reflexivity.
Qed.

(** [draw_texel] is the same test behind the two divisions. *)
Lemma draw_texel_guarded (x y : Z) (texture : upng_t)
    (point_a point_b point_c : vec4_t) (a_uv b_uv c_uv : tex2_t)
    (w : world display) :
  draw_texel get_zbuffer_at set_zbuffer_at draw_pixel
    upng_get_width upng_get_height upng_get_buffer
    x y texture point_a point_b point_c a_uv b_uv c_uv w =
  guarded_pixel get_zbuffer_at set_zbuffer_at draw_pixel
    (texel_stops upng_get_width upng_get_height texture
       point_a point_b point_c a_uv b_uv c_uv)
    (spec_depth_metric point_a point_b point_c)
    (texel_colour upng_get_width upng_get_height upng_get_buffer texture
       point_a point_b point_c a_uv b_uv c_uv) x y w.
Proof.
  unfold draw_texel, guarded_pixel, texel_stops, texel_faults, texel_colour,
    tested_pixel, spec_depth_metric.
  cbv zeta. rewrite !interpolate_attribute_at, interpolate_reciprocal_w_at.
  rewrite !texel_coord_faults, one_minus_inverted.
  destruct (texel_coord _ (upng_get_width texture)) as [tex_x|];
    [|reflexivity].
  destruct (texel_coord _ (upng_get_height texture)) as [tex_y|];
    [|reflexivity].
  cbn [orb].
  now destruct (_ <? _)%f32.
Qed.

End PixelRoutines.

(** ** The scan loops *)

Lemma and_then_returns (S : Type) (o : outcome S) :
  (s <- o ;; returns s) = o.
Proof. now destruct o. Qed.

Lemma and_then_assoc (S : Type) (o : outcome S) (f g : S -> outcome S) :
  (s <- (s <- o ;; f s) ;; g s) = (s <- o ;; s <- f s ;; g s).
Proof. now destruct o. Qed.

Lemma visit_all_app (S : Type) (pixel : Z -> Z -> S -> outcome S)
    (l1 l2 : list (Z * Z)) (s : S) :
  visit_all pixel (l1 ++ l2) s =
  (s <- visit_all pixel l1 s ;; visit_all pixel l2 s).
Proof.
  revert s. induction l1 as [|[x y] l1 IH]; intros s; cbn [app visit_all].
  - reflexivity.
  - destruct (pixel x y s) as [s'|why s']; [apply IH | reflexivity].
Qed.

Lemma visit_all_ext (S : Type) (pixel pixel' : Z -> Z -> S -> outcome S)
    (ps : list (Z * Z)) (s : S) :
  (forall x y s, pixel x y s = pixel' x y s) ->
  visit_all pixel ps s = visit_all pixel' ps s.
Proof.
  intros E. revert s. induction ps as [|[x y] ps IH]; intros s;
    cbn [visit_all]; [reflexivity|].
  rewrite E. destruct (pixel' x y s); [apply IH | reflexivity].
Qed.

(** The loop over the pixels of a row is the visit of these pixels. *)
Lemma for_each_row (S : Type) (pixel : Z -> Z -> S -> outcome S) (y : Z)
    (xs : list Z) (s : S) :
  for_each (fun s x => pixel x y s) xs s =
  visit_all pixel (map (fun x => (x, y)) xs) s.
Proof.
  revert s. induction xs as [|x xs IH]; intros s; cbn [for_each map visit_all].
  - reflexivity.
  - unfold and_then. destruct (pixel x y s); [apply IH | reflexivity].
Qed.

Lemma from_to_range (a b : Z) : from_to a b = range a (b + 1).
Proof. reflexivity. Qed.

Lemma range_from_to (lo hi : Z) : range lo hi = from_to lo (hi - 1).
Proof.
  unfold range, from_to. now replace (hi - 1 + 1 - lo) with (hi - lo) by lia.
Qed.

(** The pixels between the bounds of a scanline are those of the row. *)
Lemma scan_bounds_row (x0 y0 x1 y1 : Z) (s1 s2 : float) (y : Z) :
  (let '(x_start, x_end) := scan_bounds x0 y0 x1 y1 s1 s2 y in
   map (fun x => (x, y)) (range x_start x_end)) =
  row_pixels x0 y0 x1 y1 s1 s2 y.
Proof.
  unfold scan_bounds, row_pixels. cbv zeta.
  set (x_end := int_of_float (F32.of_Z x0 + _)%f32).
  set (x_start := int_of_float (F32.of_Z x1 + _)%f32).
  destruct (Z.ltb_spec x_end x_start) as [H|H]; cbv beta iota;
    rewrite range_from_to.
  - now rewrite Z.min_r, Z.max_l by lia.
  - now rewrite Z.min_l, Z.max_r by lia.
Qed.

Lemma scan_pixels_rows (x0 y0 x1 y1 : Z) (s1 s2 : float) (y_top y_bottom : Z) :
  scan_pixels x0 y0 x1 y1 s1 s2 y_top y_bottom =
  flat_map (row_pixels x0 y0 x1 y1 s1 s2) (from_to y_top y_bottom).
Proof.
  unfold scan_pixels. rewrite from_to_range.
  induction (range y_top (y_bottom + 1)) as [|y l IH]; cbn [flat_map].
  - reflexivity.
  - now rewrite IH, scan_bounds_row.
Qed.

Section Loops.
Variable display : Type.

Local Abbreviation world := (world display).

(** One part of a triangle: the visit of its pixels, then the last increment
    of the row counter. *)
Lemma scan_part_visits (pixel : Z -> Z -> world -> outcome world)
    (x0 y0 x1 y1 : Z) (s1 s2 : float) (y_top y_bottom : Z) (w : world) :
  scan_part pixel x0 y0 x1 y1 s1 s2 y_top y_bottom w =
  (w <- visit_all pixel (scan_pixels x0 y0 x1 y1 s1 s2 y_top y_bottom) w ;;
   if (y_top <=? y_bottom) && (y_bottom =? Int.max_signed)
   then stops counter_overflow w else returns w).
Proof.
  unfold scan_part, scan_pixels. f_equal.
  generalize (range y_top (y_bottom + 1)). intros rows. revert w.
  induction rows as [|y rows IH]; intros w; cbn [for_each flat_map].
  - reflexivity.
  - rewrite visit_all_app. unfold scan_line at 1.
    destruct (scan_bounds x0 y0 x1 y1 s1 s2 y) as [x_start x_end].
    rewrite for_each_row. unfold and_then.
    destruct (visit_all pixel _ w); [apply IH | reflexivity].
Qed.

(** The two parts, for any vertices. *)
Lemma fill_parts_steps (pixel : Z -> Z -> world -> outcome world)
    (x0 y0 x1 y1 x2 y2 : Z) (w : world) :
  fill_parts pixel x0 y0 x1 y1 x2 y2 w =
  (w <- visit_all pixel (upper_pixels x0 y0 x1 y1 x2 y2) w ;;
   w <- (if part_overflows y0 y1 then stops counter_overflow w
         else returns w) ;;
   w <- visit_all pixel (lower_pixels x0 y0 x1 y1 x2 y2) w ;;
   if part_overflows y1 y2 then stops counter_overflow w else returns w).
Proof.
  unfold fill_parts, upper_pixels, lower_pixels, part_overflows.
  destruct (upper_slopes x0 y0 x1 y1 x2 y2) as [s1 s2].
  destruct (lower_slopes x0 y0 x1 y1 x2 y2) as [t1 t2]. cbn [fst snd].
  destruct (negb (Int.sub y1 y0 =? 0)), (negb (Int.sub y2 y1 =? 0));
    cbn [andb visit_all and_then];
    repeat (rewrite ?scan_part_visits;
            match goal with
            | |- context [visit_all pixel ?l ?w] =>
                destruct (visit_all pixel l w)
            | |- context [if ?c then stops _ _ else returns _] =>
                destruct c
            end; cbn [and_then]);
    reflexivity.
Qed.

End Loops.

(** *** The pixels of the loops and those of the formulas *)

Lemma Int_sub_eqb (a b : Z) :
  Int.in_range a -> Int.in_range b -> (Int.sub b a =? 0) = (b =? a).
Proof.
  intros Ha Hb. destruct (Z.eqb_spec b a) as [->|N].
  - now rewrite Int_sub_diag.
  - destruct (Z_lt_le_dec a b) as [H|H].
    + now apply Int_sub_lt.
    + apply Z.eqb_neq. intros E.
      assert (E' : Int.sub a b = 0).
      { unfold Int.sub, Int.wrap, Int.in_range, Int.min_signed,
          Int.max_signed in *.
        apply (f_equal (fun v => v + 2 ^ 31)) in E.
        replace (((b - a + 2 ^ 31) mod 2 ^ 32 - 2 ^ 31) + 2 ^ 31)
          with ((b - a + 2 ^ 31) mod 2 ^ 32) in E by lia.
        destruct (Z_lt_le_dec (b - a + 2 ^ 31) 0) as [Hs|Hs].
        - replace (b - a + 2 ^ 31) with (b - a + 2 ^ 31 + 2 ^ 32 + -1 * 2 ^ 32)
            in E by lia.
          rewrite Z_mod_plus_full, Z.mod_small in E by lia. lia.
        - rewrite Z.mod_small in E by lia. lia. }
      assert (Hlt : a <> b) by congruence.
      pose proof (@Int_sub_lt b a Hb Ha ltac:(lia)) as F.
      rewrite E' in F. discriminate.
Qed.

Lemma upper_slopes_edges (x0 y0 x1 y1 x2 y2 : Z) :
  Int.in_range y0 -> Int.in_range y1 -> Int.in_range y2 ->
  upper_slopes x0 y0 x1 y1 x2 y2 =
  (edge_slope x0 y0 x1 y1, edge_slope x0 y0 x2 y2).
Proof.
  intros R0 R1 R2. unfold upper_slopes, edge_slope, slope_of.
  rewrite (Int_sub_eqb R0 R1), (Int_sub_eqb R0 R2).
  destruct (y1 =? y0), (y2 =? y0); reflexivity.
Qed.

Lemma lower_slopes_edges (x0 y0 x1 y1 x2 y2 : Z) :
  Int.in_range y0 -> Int.in_range y1 -> Int.in_range y2 ->
  lower_slopes x0 y0 x1 y1 x2 y2 =
  (edge_slope x1 y1 x2 y2, edge_slope x0 y0 x2 y2).
Proof.
  intros R0 R1 R2. unfold lower_slopes, edge_slope, slope_of.
  rewrite (Int_sub_eqb R1 R2), (Int_sub_eqb R0 R2).
  destruct (y2 =? y1), (y2 =? y0); reflexivity.
Qed.

Lemma fill_pixels_visits (x0 y0 x1 y1 x2 y2 : Z) :
  Int.in_range y0 -> Int.in_range y1 -> Int.in_range y2 ->
  fill_pixels x0 y0 x1 y1 x2 y2 = triangle_visits x0 y0 x1 y1 x2 y2.
Proof.
  intros R0 R1 R2.
  unfold fill_pixels, upper_pixels, lower_pixels, triangle_visits,
    upper_rows, lower_rows.
  rewrite (upper_slopes_edges x0 x1 x2 R0 R1 R2),
    (lower_slopes_edges x0 x1 x2 R0 R1 R2). cbn [fst snd].
  rewrite (Int_sub_eqb R0 R1), (Int_sub_eqb R1 R2), !scan_pixels_rows.
  destruct (y1 =? y0), (y2 =? y1); reflexivity.
Qed.

Section Visits.
Variable display : Type.

(** The two parts for sorted vertices: the visit of the pixels of the
    triangle, then the last increment of the row counter. *)
Lemma fill_parts_visits
    (pixel : Z -> Z -> world display -> outcome (world display))
    (x0 y0 x1 y1 x2 y2 : Z) (w : world display) :
  Int.in_range y0 -> Int.in_range y1 -> Int.in_range y2 ->
  y0 <= y1 <= y2 ->
  fill_parts pixel x0 y0 x1 y1 x2 y2 w =
  after_rows y0 y2 (visit_all pixel (triangle_visits x0 y0 x1 y1 x2 y2) w).
Proof.
  intros R0 R1 R2 Hs.
  rewrite fill_parts_steps, <- (fill_pixels_visits x0 x1 x2 R0 R1 R2).
  unfold fill_pixels. rewrite visit_all_app.
  assert (Hmax : y2 <= Int.max_signed) by apply R2.
  unfold part_overflows at 1.
  rewrite (Int_sub_eqb R0 R1).
  destruct (Z.eqb_spec y1 y0) as [E1|N1].
  - (* the upper loop is skipped *)
    subst y1. cbn [negb andb].
    assert (U : upper_pixels x0 y0 x1 y0 x2 y2 = []).
    { unfold upper_pixels. now rewrite Int_sub_diag. }
    rewrite U. cbn [visit_all and_then].
    unfold part_overflows, after_rows. rewrite (Int_sub_eqb R0 R2).
    destruct (visit_all pixel _ w) as [w'|why w']; cbn [and_then];
      [|reflexivity].
    destruct (Z.eqb_spec y2 y0) as [E2|N2].
    + subst y2. now rewrite Z.ltb_irrefl.
    + cbn [negb andb].
      replace (y0 <=? y2) with true by (symmetry; apply Z.leb_le; lia).
      replace (y0 <? y2) with true by (symmetry; apply Z.ltb_lt; lia).
      reflexivity.
  - cbn [negb andb].
    replace (y0 <=? y1) with true by (symmetry; apply Z.leb_le; lia).
    cbn [andb].
    destruct (Z.eqb_spec y1 Int.max_signed) as [E1|M1].
    + (* the upper loop ends on the last row of all *)
      assert (E2 : y2 = y1) by lia. subst y2.
      assert (Lo : lower_pixels x0 y0 x1 y1 x2 y1 = []).
      { unfold lower_pixels. now rewrite Int_sub_diag. }
      rewrite Lo. cbn [visit_all]. unfold after_rows.
      destruct (visit_all pixel _ w) as [w'|why w']; cbn [and_then];
        [|reflexivity].
      replace (y0 <? y1) with true by (symmetry; apply Z.ltb_lt; lia).
      replace (y1 =? Int.max_signed) with true
        by (symmetry; apply Z.eqb_eq; exact E1).
      reflexivity.
    + destruct (visit_all pixel (upper_pixels x0 y0 x1 y1 x2 y2) w)
        as [w1|why w1]; cbn [and_then]; [|reflexivity].
      unfold part_overflows, after_rows. rewrite (Int_sub_eqb R1 R2).
      destruct (visit_all pixel _ w1) as [w'|why w']; cbn [and_then];
        [|reflexivity].
      replace (y0 <? y2) with true by (symmetry; apply Z.ltb_lt; lia).
      destruct (Z.eqb_spec y2 y1) as [E2|N2].
      * subst y2. cbn [negb andb].
        now replace (y1 =? Int.max_signed) with false
          by (symmetry; apply Z.eqb_neq; exact M1).
      * cbn [negb andb].
        now replace (y1 <=? y2) with true by (symmetry; apply Z.leb_le; lia).
Qed.

End Visits.

(** *** Routines that return *)

Section Returning.
Variable display : Type.
Variable get_zbuffer_at : display -> Z -> Z -> float.
Variable set_zbuffer_at : display -> Z -> Z -> float -> display.
Variable draw_pixel : display -> Z -> Z -> Z -> display.

Lemma visit_all_returns
    (pixel : Z -> Z -> world display -> outcome (world display))
    (pure : Z -> Z -> world display -> world display)
    (ps : list (Z * Z)) (w : world display) :
  (forall x y w, pixel x y w = returns (pure x y w)) ->
  visit_all pixel ps w = returns (run_pixels pure ps w).
Proof.
  intros E. revert w. induction ps as [|[x y] ps IH]; intros w;
    cbn [visit_all run_pixels fold_left]; [reflexivity|].
  rewrite E. apply IH.
Qed.

Local Abbreviation guarded :=
  (guarded_pixel get_zbuffer_at set_zbuffer_at draw_pixel).
Local Abbreviation tested :=
  (tested_pixel get_zbuffer_at set_zbuffer_at draw_pixel).

Lemma visit_all_guarded (F : Z -> Z -> bool) (D : Z -> Z -> float)
    (C : Z -> Z -> Z) (ps : list (Z * Z)) (w : world display) :
  (forall p, In p ps -> F (fst p) (snd p) = false) ->
  visit_all (guarded F D C) ps w = returns (run_pixels (tested D C) ps w).
Proof.
  revert w. induction ps as [|[x y] ps IH]; intros w H;
    cbn [visit_all run_pixels fold_left]; [reflexivity|].
  unfold guarded_pixel at 1.
  replace (F x y) with false by (symmetry; apply (H (x, y)); now left).
  apply IH. intros p Hp. apply H. now right.
Qed.

Lemma visit_all_guarded_inv (F : Z -> Z -> bool) (D : Z -> Z -> float)
    (C : Z -> Z -> Z) (ps : list (Z * Z)) (w w' : world display) :
  visit_all (guarded F D C) ps w = returns w' ->
  (forall p, In p ps -> F (fst p) (snd p) = false) /\
  w' = run_pixels (tested D C) ps w.
Proof.
  revert w. induction ps as [|[x y] ps IH]; intros w;
    cbn [visit_all run_pixels fold_left].
  - intros E. injection E as <-. split; [intros p []|reflexivity].
  - unfold guarded_pixel at 1. destruct (F x y) eqn:Fxy; [discriminate|].
    intros E. destruct (IH _ E) as [H1 H2]. split; [|exact H2].
    intros p [<-|Hp]; [exact Fxy | now apply H1].
Qed.

End Returning.



(** *** The rows of a triangle with three distinct y *)

Lemma from_to_snoc (a b : Z) : a <= b -> from_to a b = from_to a (b - 1) ++ [b].
Proof.
  intros H. rewrite from_to_range, (@range_snoc a b H). f_equal.
  apply range_from_to.
Qed.

Lemma from_to_cons (a b : Z) : a <= b -> from_to a b = a :: from_to (a + 1) b.
Proof.
  intros H. rewrite !from_to_range. apply range_cons. lia.
Qed.

Lemma edge_slope_finite (xa ya xb yb : Z) :
  Int.in_range ya -> Int.in_range yb ->
  finite_or_zero (edge_slope xa ya xb yb) = true.
Proof.
  intros Ra Rb. unfold edge_slope.
  destruct (Z.eqb_spec yb ya) as [E|N]; [reflexivity|].
  apply (@slope_of_finite (Int.sub xb xa) (Int.sub yb ya));
    try apply wrap_in_range.
  apply Z.eqb_neq. rewrite (Int_sub_eqb Ra Rb). now apply Z.eqb_neq.
Qed.

(** On the row of the middle vertex the pixels do not depend on the first
    slope, which is multiplied by [y - y1 = 0]. *)
Lemma row_pixels_middle (x0 y0 x1 y1 : Z) (s1 t1 s2 : float) :
  finite_or_zero s1 = true -> finite_or_zero t1 = true ->
  row_pixels x0 y0 x1 y1 s1 s2 y1 = row_pixels x0 y0 x1 y1 t1 s2 y1.
Proof.
  intros Hs Ht. unfold row_pixels. rewrite Int_sub_diag.
  rewrite (int_of_float_add_zero _ _ (zero_mul_finite _ Hs)).
  rewrite (int_of_float_add_zero _ _ (zero_mul_finite _ Ht)).
  reflexivity.
Qed.

Lemma triangle_visits_twice (x0 y0 x1 y1 x2 y2 : Z) :
  Int.in_range y0 -> Int.in_range y1 -> Int.in_range y2 ->
  y0 < y1 -> y1 < y2 ->
  triangle_visits x0 y0 x1 y1 x2 y2 =
  upper_rows x0 y0 x1 y1 x2 y2 y0 (y1 - 1) ++
  middle_row x0 y0 x1 y1 x2 y2 ++ middle_row x0 y0 x1 y1 x2 y2 ++
  lower_rows x0 y0 x1 y1 x2 y2 (y1 + 1) y2.
Proof.
  intros R0 R1 R2 H01 H12. unfold triangle_visits.
  replace (y1 =? y0) with false by (symmetry; apply Z.eqb_neq; lia).
  replace (y2 =? y1) with false by (symmetry; apply Z.eqb_neq; lia).
  unfold upper_rows, lower_rows, middle_row.
  rewrite (@from_to_snoc y0 y1) by lia.
  rewrite (@from_to_cons y1 y2) by lia.
  rewrite flat_map_app. cbn [flat_map]. rewrite app_nil_r, <- app_assoc.
  do 2 f_equal. f_equal.
  apply row_pixels_middle; now apply edge_slope_finite.
Qed.

(** ** The rasterizer *)

Section Rasterizer.
Variable display : Type.
Variable get_zbuffer_at : display -> Z -> Z -> float.
Variable set_zbuffer_at : display -> Z -> Z -> float -> display.
Variable draw_pixel : display -> Z -> Z -> Z -> display.
Variable upng_t : Type.
Variable upng_get_width : upng_t -> Z.
Variable upng_get_height : upng_t -> Z.
Variable upng_get_buffer : upng_t -> Z -> Z.

Local Abbreviation filled_triangle :=
  (draw_filled_triangle get_zbuffer_at set_zbuffer_at draw_pixel).
Local Abbreviation textured_triangle :=
  (draw_textured_triangle get_zbuffer_at set_zbuffer_at draw_pixel
     upng_get_width upng_get_height upng_get_buffer).


(** C3, amended.  In [draw_texel], with u and v the perspective-correct
    interpolated coordinates, the texel read is that of
    [tex_x = floor(|u * texture_width|) % texture_width] and
    [tex_y = floor(|v * texture_height|) % texture_height]: the products are
    truncated toward zero by the cast to [int], not floored, before the
    absolute value is taken.  This holds for texture dimensions that are not
    zero and products that are finite with an absolute value whose integer
    part is at most [INT_MAX]. *)
Theorem draw_texel_texel_coords
    (x y : Z) (texture : upng_t) (point_a point_b point_c : vec4_t)
    (a_uv b_uv c_uv : tex2_t) (w : world display) (nx ny : Z) :
  let u := attribute_at point_a point_b point_c x y
             (tex2_u a_uv) (tex2_u b_uv) (tex2_u c_uv) in
  let v := attribute_at point_a point_b point_c x y
             (tex2_v a_uv) (tex2_v b_uv) (tex2_v c_uv) in
  let texture_width := upng_get_width texture in
  let texture_height := upng_get_height texture in
  let depth := spec_depth_metric point_a point_b point_c x y in
  texture_width <> 0 -> texture_height <> 0 ->
  floor_of_float (SFabs (u * F32.of_Z texture_width)%f32) = Some nx ->
  nx <= Int.max_signed ->
  floor_of_float (SFabs (v * F32.of_Z texture_height)%f32) = Some ny ->
  ny <= Int.max_signed ->
  (depth <? get_zbuffer_at (buffers w) x y)%f32 = true ->
  let tex_x := Z.rem nx texture_width in
  let tex_y := Z.rem ny texture_height in
  exists w',
    draw_texel get_zbuffer_at set_zbuffer_at draw_pixel
      upng_get_width upng_get_height upng_get_buffer
      x y texture point_a point_b point_c a_uv b_uv c_uv w = returns w' /\
    calls w' =
    calls w ++
    [call_draw_pixel x y
       (upng_get_buffer texture (Int.add (Int.mul texture_width tex_y) tex_x));
     call_set_zbuffer_at x y depth].
Proof.
  intros u v texture_width texture_height depth Hw Hh Hx Hnx Hy Hny Hd
    tex_x tex_y.
  rewrite draw_texel_guarded.
  unfold guarded_pixel, texel_stops, texel_faults, texel_colour, tested_pixel.
  fold u v texture_width texture_height depth.
  rewrite !texel_coord_faults.
  rewrite (texel_coord_floor_abs _ Hw Hx Hnx).
  rewrite (texel_coord_floor_abs _ Hh Hy Hny).
  cbn [orb]. rewrite Hd. eexists. split; [reflexivity|].
  cbn [calls do_set_zbuffer_at do_draw_pixel]. now rewrite <- app_assoc.
Qed.

Lemma fill_parts_level
    (pixel : Z -> Z -> world display -> outcome (world display))
    (x0 x1 x2 y : Z) (w : world display) :
  fill_parts pixel x0 y x1 y x2 y w = returns w.
Proof.
  unfold fill_parts.
  destruct (upper_slopes x0 y x1 y x2 y), (lower_slopes x0 y x1 y x2 y).
  now rewrite Int_sub_diag.
Qed.

(** C6. When the three vertices have the same y, [draw_filled_triangle] and
    [draw_textured_triangle] return and leave the world as it is: no call to
    [draw_pixel] or to [set_zbuffer_at] is made.  The inverse slopes of both
    parts keep their initial value 0 (no quotient by the zero height is
    taken), and both scan loops are skipped. *)
Theorem degenerate_triangle_draws_nothing
    (x0 x1 x2 y : Z) (z0 w0 u0 v0 z1 w1 u1 v1 z2 w2 u2 v2 : float)
    (color : Z) (texture : upng_t) (w : world display) :
  upper_slopes x0 y x1 y x2 y = (F32.of_Z 0, F32.of_Z 0) /\
  lower_slopes x0 y x1 y x2 y = (F32.of_Z 0, F32.of_Z 0) /\
  filled_triangle x0 y z0 w0 x1 y z1 w1 x2 y z2 w2 color w = returns w /\
  textured_triangle x0 y z0 w0 u0 v0 x1 y z1 w1 u1 v1 x2 y z2 w2 u2 v2
    texture w = returns w.
Proof.
  repeat split.
  - unfold upper_slopes. now rewrite Int_sub_diag.
  - unfold lower_slopes. now rewrite Int_sub_diag.
  - unfold draw_filled_triangle. rewrite sort_by_y_level.
    apply fill_parts_level.
  - unfold draw_textured_triangle. rewrite sort_by_y_level.
    apply fill_parts_level.
Qed.

Ltac split_ifs :=
  repeat match goal with
         | |- context [if ?c then _ else _] => destruct c
         end.

(** C9. The z of the vertices has no part in what the rasterizer does: two
    calls of [draw_filled_triangle], or of [draw_textured_triangle], that
    differ only in z0, z1 and z2 have the same outcome and end in the same
    world, with the same calls to [draw_pixel] and [set_zbuffer_at] in the
    same order. *)
Theorem rasterizer_ignores_z
    (x0 y0 x1 y1 x2 y2 : Z) (z0 z1 z2 z0' z1' z2' : float)
    (w0 u0 v0 w1 u1 v1 w2 u2 v2 : float)
    (color : Z) (texture : upng_t) (w : world display) :
  filled_triangle x0 y0 z0 w0 x1 y1 z1 w1 x2 y2 z2 w2 color w =
  filled_triangle x0 y0 z0' w0 x1 y1 z1' w1 x2 y2 z2' w2 color w /\
  textured_triangle x0 y0 z0 w0 u0 v0 x1 y1 z1 w1 u1 v1
    x2 y2 z2 w2 u2 v2 texture w =
  textured_triangle x0 y0 z0' w0 u0 v0 x1 y1 z1' w1 u1 v1
    x2 y2 z2' w2 u2 v2 texture w.
Proof.
  unfold draw_filled_triangle, draw_textured_triangle, sort_by_y.
  split; split_ifs; reflexivity.
Qed.

Lemma draw_filled_triangle_sorted
    (x0 y0 : Z) (z0 w0 : float) (x1 y1 : Z) (z1 w1 : float)
    (x2 y2 : Z) (z2 w2 : float) (color : Z) (w : world display)
    (X0 Y0 : Z) (Z0 W0 : float) (X1 Y1 : Z) (Z1 W1 : float)
    (X2 Y2 : Z) (Z2 W2 : float) :
  sort_by_y y0 (x0, z0, w0) y1 (x1, z1, w1) y2 (x2, z2, w2) =
    ((Y0, (X0, Z0, W0)), (Y1, (X1, Z1, W1)), (Y2, (X2, Z2, W2))) ->
  draw_filled_triangle get_zbuffer_at set_zbuffer_at draw_pixel
    x0 y0 z0 w0 x1 y1 z1 w1 x2 y2 z2 w2 color w =
  fill_parts
    (fun x y w =>
       returns
         (draw_triangle_pixel get_zbuffer_at set_zbuffer_at draw_pixel
            x y color
            (mk_vec4 (F32.of_Z X0) (F32.of_Z Y0) Z0 W0)
            (mk_vec4 (F32.of_Z X1) (F32.of_Z Y1) Z1 W1)
            (mk_vec4 (F32.of_Z X2) (F32.of_Z Y2) Z2 W2) w))
    X0 Y0 X1 Y1 X2 Y2 w.
Proof. intros E. unfold draw_filled_triangle. now rewrite E. Qed.

Lemma draw_textured_triangle_sorted
    (x0 y0 : Z) (z0 w0 u0 v0 : float) (x1 y1 : Z) (z1 w1 u1 v1 : float)
    (x2 y2 : Z) (z2 w2 u2 v2 : float) (texture : upng_t) (w : world display)
    (X0 Y0 : Z) (Z0 W0 U0 V0 : float) (X1 Y1 : Z) (Z1 W1 U1 V1 : float)
    (X2 Y2 : Z) (Z2 W2 U2 V2 : float) :
  sort_by_y y0 (x0, z0, w0, u0, v0) y1 (x1, z1, w1, u1, v1)
            y2 (x2, z2, w2, u2, v2) =
    ((Y0, (X0, Z0, W0, U0, V0)), (Y1, (X1, Z1, W1, U1, V1)),
     (Y2, (X2, Z2, W2, U2, V2))) ->
  draw_textured_triangle get_zbuffer_at set_zbuffer_at draw_pixel
    upng_get_width upng_get_height upng_get_buffer
    x0 y0 z0 w0 u0 v0 x1 y1 z1 w1 u1 v1 x2 y2 z2 w2 u2 v2 texture w =
  fill_parts
    (fun x y =>
       draw_texel get_zbuffer_at set_zbuffer_at draw_pixel
         upng_get_width upng_get_height upng_get_buffer x y texture
         (mk_vec4 (F32.of_Z X0) (F32.of_Z Y0) Z0 W0)
         (mk_vec4 (F32.of_Z X1) (F32.of_Z Y1) Z1 W1)
         (mk_vec4 (F32.of_Z X2) (F32.of_Z Y2) Z2 W2)
         (mk_tex2 U0 (inverted V0)) (mk_tex2 U1 (inverted V1))
         (mk_tex2 U2 (inverted V2)))
    X0 Y0 X1 Y1 X2 Y2 w.
Proof. intros E. unfold draw_textured_triangle. now rewrite E. Qed.

(** C10, amended.  Let (X0,Y0), (X1,Y1), (X2,Y2) be the vertices as the sort
    by ascending y leaves them.  [draw_filled_triangle] and
    [draw_textured_triangle] call their pixel routine at the pixels of the
    rows Y0 to Y1 inclusive, unless Y1 = Y0, where the upper loop is skipped,
    and then at those of the rows Y1 to Y2 inclusive, unless Y2 = Y1, where
    the lower loop is skipped; the calls go on as long as the routine returns,
    and the increment of the row counter after the last row of a loop that is
    run overflows when that row is [INT_MAX].  When Y0 < Y1 < Y2 both loops
    run: the pixels of the row Y1 are visited at the end of the upper loop
    and again, the same pixels, at the start of the lower loop. *)
Theorem middle_scanline_scanned_twice
    (x0 y0 : Z) (z0 w0 u0 v0 : float) (x1 y1 : Z) (z1 w1 u1 v1 : float)
    (x2 y2 : Z) (z2 w2 u2 v2 : float) (color : Z) (texture : upng_t)
    (w : world display)
    (X0 Y0 : Z) (Z0 W0 U0 V0 : float) (X1 Y1 : Z) (Z1 W1 U1 V1 : float)
    (X2 Y2 : Z) (Z2 W2 U2 V2 : float) :
  sort_by_y y0 (x0, z0, w0, u0, v0) y1 (x1, z1, w1, u1, v1)
            y2 (x2, z2, w2, u2, v2) =
    ((Y0, (X0, Z0, W0, U0, V0)), (Y1, (X1, Z1, W1, U1, V1)),
     (Y2, (X2, Z2, W2, U2, V2))) ->
  Int.in_range Y0 -> Int.in_range Y1 -> Int.in_range Y2 ->
  let point_a := mk_vec4 (F32.of_Z X0) (F32.of_Z Y0) Z0 W0 in
  let point_b := mk_vec4 (F32.of_Z X1) (F32.of_Z Y1) Z1 W1 in
  let point_c := mk_vec4 (F32.of_Z X2) (F32.of_Z Y2) Z2 W2 in
  let flat x y w :=
    returns
      (draw_triangle_pixel get_zbuffer_at set_zbuffer_at draw_pixel x y color
         point_a point_b point_c w) in
  let textured x y :=
    draw_texel get_zbuffer_at set_zbuffer_at draw_pixel
      upng_get_width upng_get_height upng_get_buffer x y texture
      point_a point_b point_c
      (mk_tex2 U0 (inverted V0)) (mk_tex2 U1 (inverted V1))
      (mk_tex2 U2 (inverted V2)) in
  let filled_outcome :=
    draw_filled_triangle get_zbuffer_at set_zbuffer_at draw_pixel
      x0 y0 z0 w0 x1 y1 z1 w1 x2 y2 z2 w2 color w in
  let textured_outcome :=
    draw_textured_triangle get_zbuffer_at set_zbuffer_at draw_pixel
      upng_get_width upng_get_height upng_get_buffer
      x0 y0 z0 w0 u0 v0 x1 y1 z1 w1 u1 v1 x2 y2 z2 w2 u2 v2 texture w in
  let visits := triangle_visits X0 Y0 X1 Y1 X2 Y2 in
  let twice :=
    upper_rows X0 Y0 X1 Y1 X2 Y2 Y0 (Y1 - 1) ++
    middle_row X0 Y0 X1 Y1 X2 Y2 ++ middle_row X0 Y0 X1 Y1 X2 Y2 ++
    lower_rows X0 Y0 X1 Y1 X2 Y2 (Y1 + 1) Y2 in
  (filled_outcome = after_rows Y0 Y2 (visit_all flat visits w) /\
   textured_outcome = after_rows Y0 Y2 (visit_all textured visits w)) /\
  (Y0 < Y1 -> Y1 < Y2 ->
   filled_outcome = after_rows Y0 Y2 (visit_all flat twice w) /\
   textured_outcome = after_rows Y0 Y2 (visit_all textured twice w)).
Proof.
  intros E R0 R1 R2 point_a point_b point_c flat textured
    filled_outcome textured_outcome visits twice.
  pose proof (sort_by_y_ascending y0 (x0, z0, w0, u0, v0)
                y1 (x1, z1, w1, u1, v1) y2 (x2, z2, w2, u2, v2)) as Hs.
  rewrite E in Hs.
  assert (A : filled_outcome = after_rows Y0 Y2 (visit_all flat visits w) /\
              textured_outcome =
              after_rows Y0 Y2 (visit_all textured visits w)).
  { split.
    - pose proof (sort_by_y_map
                    (fun a : Z * float * float * float * float =>
                       let '(x, z, w, _, _) := a in (x, z, w))
                    y0 (x0, z0, w0, u0, v0) y1 (x1, z1, w1, u1, v1)
                    y2 (x2, z2, w2, u2, v2)) as E3.
      rewrite E in E3. cbv beta iota in E3.
      subst filled_outcome.
      erewrite draw_filled_triangle_sorted by exact E3.
      now apply fill_parts_visits.
    - subst textured_outcome.
      erewrite draw_textured_triangle_sorted by exact E.
      now apply fill_parts_visits. }
  split; [exact A|].
  intros H01 H12. subst twice.
  rewrite <- (triangle_visits_twice X0 X1 X2 R0 R1 R2 H01 H12). exact A.
Qed.

End Rasterizer.

(** ** Examples on the sample display *)


(** With u = v = -1/4 at the three vertices, the pixel (0,0) has
    [u * texture_width = -1/2]: the cast gives 0, so the texel (0,0), of
    index 0, is drawn, where the floor is -1 and the formula of the
    specification gives the texel (1,1), of index 3. *)
Lemma texel_coord_not_floor :
  attribute_at
    (vec4_of_ints 0 0 0 1) (vec4_of_ints 4 0 0 1) (vec4_of_ints 0 4 0 1) 0 0
    (ratio (-1) 4) (ratio (-1) 4) (ratio (-1) 4) = ratio (-1) 4 /\
  texel_coord (ratio (-1) 4) 2 = Some 0 /\
  spec_texel_coord (ratio (-1) 4) 2 = Some 1 /\
  exists w',
    sample_texel 0 0 (Sample.mk_texture 2 2)
      (uv (-1) 4) (uv (-1) 4) (uv (-1) 4) = returns w' /\
    calls w' = [call_draw_pixel 0 0 0; call_set_zbuffer_at 0 0 (F32.of_Z 0)].
Proof.
  repeat split; try (vm_compute; reflexivity).
  eexists. split; vm_compute; reflexivity.
Qed.

(** With u = v = 7/4 at the three vertices, the pixel (0,0) has
    [u * texture_width = 7/2], of integer part 3, and the texel (1,1), of
    index 3, is drawn. *)
Lemma draw_texel_texel_coords_witness :
  exists w',
    sample_texel 0 0 (Sample.mk_texture 2 2) (uv 7 4) (uv 7 4) (uv 7 4) =
      returns w' /\
    calls w' =
      calls Sample.start ++
      [call_draw_pixel 0 0 3; call_set_zbuffer_at 0 0 (F32.of_Z 0)].
Proof.
  exact (@draw_texel_texel_coords
           Sample.display Sample.get_zbuffer_at Sample.set_zbuffer_at
           Sample.draw_pixel Sample.texture
           Sample.width Sample.height Sample.buffer
           0 0 (Sample.mk_texture 2 2)
           (vec4_of_ints 0 0 0 1) (vec4_of_ints 4 0 0 1) (vec4_of_ints 0 4 0 1)
           (uv 7 4) (uv 7 4) (uv 7 4) Sample.start 3 3
           ltac:(discriminate) ltac:(discriminate)
           eq_refl ltac:(vm_compute; discriminate)
           eq_refl ltac:(vm_compute; discriminate) eq_refl).
Defined.

(** The triangle (0,0), (2,0), (1,2), whose first two vertices are level, on
    the display that accepts every pixel: the calls show the pixels (0,0) and
    (1,0) of the row 0 once, visited by the lower loop, and the pixel (0,1).
    Two loops over the rows y0 to y1 and y1 to y2 would visit the row 0
    twice. *)
Lemma level_edge_scanned_once :
  let zero := F32.of_Z 0 in
  let one := F32.of_Z 1 in
  let flat x y w :=
    returns
      (draw_triangle_pixel Probe.get_zbuffer_at Probe.set_zbuffer_at
         Probe.draw_pixel x y 255
         (vec4_of_ints 0 0 0 1) (vec4_of_ints 2 0 0 1) (vec4_of_ints 1 2 0 1)
         w) in
  draw_filled_triangle Probe.get_zbuffer_at Probe.set_zbuffer_at
    Probe.draw_pixel 0 0 zero one 2 0 zero one 1 2 zero one 255 Probe.start =
  returns
    (mk_world tt
       [call_draw_pixel 0 0 255; call_set_zbuffer_at 0 0 zero;
        call_draw_pixel 1 0 255; call_set_zbuffer_at 1 0 zero;
        call_draw_pixel 0 1 255; call_set_zbuffer_at 0 1 zero]) /\
  visit_all flat (unguarded_visits 0 0 2 0 1 2) Probe.start =
  returns
    (mk_world tt
       [call_draw_pixel 0 0 255; call_set_zbuffer_at 0 0 zero;
        call_draw_pixel 1 0 255; call_set_zbuffer_at 1 0 zero;
        call_draw_pixel 0 0 255; call_set_zbuffer_at 0 0 zero;
        call_draw_pixel 1 0 255; call_set_zbuffer_at 1 0 zero;
        call_draw_pixel 0 1 255; call_set_zbuffer_at 0 1 zero]).
Proof. vm_compute. split; reflexivity. Qed.

(** The triangle (1,4), (4,2), (0,0), whose vertices are sorted into (0,0),
    (4,2), (1,4): the pixels of the row y = 2 are visited by both loops. *)
Lemma middle_scanline_scanned_twice_witness :
  draw_filled_triangle Sample.get_zbuffer_at Sample.set_zbuffer_at
    Sample.draw_pixel
    1 4 (F32.of_Z 7) (F32.of_Z 2) 4 2 (F32.of_Z 8) (F32.of_Z 3)
    0 0 (F32.of_Z 9) (F32.of_Z 4) 255 Sample.start =
  after_rows 0 4
    (visit_all
       (fun x y w =>
          returns
            (draw_triangle_pixel Sample.get_zbuffer_at Sample.set_zbuffer_at
               Sample.draw_pixel x y 255
               (mk_vec4 (F32.of_Z 0) (F32.of_Z 0) (F32.of_Z 9) (F32.of_Z 4))
               (mk_vec4 (F32.of_Z 4) (F32.of_Z 2) (F32.of_Z 8) (F32.of_Z 3))
               (mk_vec4 (F32.of_Z 1) (F32.of_Z 4) (F32.of_Z 7) (F32.of_Z 2))
               w))
       (upper_rows 0 0 4 2 1 4 0 (2 - 1) ++
        middle_row 0 0 4 2 1 4 ++ middle_row 0 0 4 2 1 4 ++
        lower_rows 0 0 4 2 1 4 (2 + 1) 4)
       Sample.start).
Proof.
  assert (R : forall n, -10 <= n <= 10 -> Int.in_range n)
    by (unfold Int.in_range, Int.min_signed, Int.max_signed; lia).
  exact (proj1 (proj2
    (@middle_scanline_scanned_twice
       Sample.display Sample.get_zbuffer_at Sample.set_zbuffer_at
       Sample.draw_pixel Sample.texture
       Sample.width Sample.height Sample.buffer
       1 4 (F32.of_Z 7) (F32.of_Z 2) (F32.of_Z 0) (F32.of_Z 0)
       4 2 (F32.of_Z 8) (F32.of_Z 3) (F32.of_Z 0) (F32.of_Z 0)
       0 0 (F32.of_Z 9) (F32.of_Z 4) (F32.of_Z 0) (F32.of_Z 0)
       255 (Sample.mk_texture 2 2) Sample.start
       0 0 (F32.of_Z 9) (F32.of_Z 4) (F32.of_Z 0) (F32.of_Z 0)
       4 2 (F32.of_Z 8) (F32.of_Z 3) (F32.of_Z 0) (F32.of_Z 0)
       1 4 (F32.of_Z 7) (F32.of_Z 2) (F32.of_Z 0) (F32.of_Z 0)
       eq_refl (R 0 ltac:(lia)) (R 2 ltac:(lia)) (R 4 ltac:(lia)))
    ltac:(lia) ltac:(lia))).
Defined.

(** * More properties of the code *)

(** ** Sums with zero terms *)

Lemma binary_round_aux_not_nan (prec emax : Z) (s : bool) (m e : Z) (l : location) :
  0 <= prec -> 0 <= m ->
  is_nan (binary_round_aux prec emax s m e l) = false.
Proof.
  intros Hp Hm. unfold binary_round_aux.
  pose proof (shr_fexp_facts prec emax m e l Hp Hm) as F1.
  destruct (shr_fexp prec emax m e l) as [mrs' e']. cbn [fst snd] in F1.
  destruct F1 as ([A1 A2] & _).
  pose proof (round_nearest_even_bounds (shr_m mrs') (loc_of_shr_record mrs')) as R.
  set (m2 := round_nearest_even (shr_m mrs') (loc_of_shr_record mrs')) in *.
  assert (Hm2 : 0 <= m2) by lia.
  pose proof (shr_fexp_facts prec emax m2 e' loc_Exact Hp Hm2) as F2.
  destruct (shr_fexp prec emax m2 e' loc_Exact) as [mrs'' e'']. cbn [fst snd] in F2.
  destruct F2 as ([B1 B2] & _).
  destruct (shr_m mrs'') as [|p|p]; try lia; try reflexivity.
  now destruct (e'' <=? emax - prec).
Qed.

Lemma F32_mul_not_nan (a b : float) :
  finite_or_zero a = true -> finite_or_zero b = true ->
  is_nan (a * b)%f32 = false.
Proof.
  destruct a as [sa| | |sa ma ea], b as [sb| | |sb mb eb]; try discriminate;
    intros _ _; try reflexivity.
  apply binary_round_aux_not_nan; unfold F32.prec; lia.
Qed.

Lemma binary_normalize_not_nan (prec emax m e : Z) (sz : bool) :
  0 <= prec -> is_nan (binary_normalize prec emax m e sz) = false.
Proof.
  intros Hp. unfold binary_normalize, binary_round.
  destruct m as [|p|p]; try reflexivity.
  - destruct (shl_align p e (fexp prec emax (Zpos (digits2_pos p) + e))).
    apply binary_round_aux_not_nan; lia.
  - destruct (shl_align p e (fexp prec emax (Zpos (digits2_pos p) + e))).
    apply binary_round_aux_not_nan; lia.
Qed.

Lemma F32_add_not_nan (a b : float) :
  finite_or_zero a = true -> is_nan b = false -> is_nan (a + b)%f32 = false.
Proof.
  destruct a as [sa| | |sa ma ea], b as [sb|sb| |sb mb eb]; try discriminate;
    intros _ _; try reflexivity.
  - now destruct sa, sb.
  - apply binary_normalize_not_nan. unfold F32.prec. lia.
Qed.

Lemma finite32_finite_or_zero (x : float) :
  finite32 x = true -> finite_or_zero x = true.
Proof. destruct x; try discriminate; reflexivity. Qed.

(** Adding a zero changes nothing but, possibly, the sign of a zero. *)
Lemma same_value_add_zero (a x z : float) :
  same_value a x -> is_zero z = true -> same_value (a + z)%f32 x.
Proof.
  intros [-> | [Ha Hx]] Hz.
  - destruct x as [sx|sx| |sx mx ex], z as [sz| | |]; try discriminate.
    + right. split; [now apply F32_add_zeros | reflexivity].
    + now left.
    + now left.
    + now left.
  - right. split; [now apply F32_add_zeros | assumption].
Qed.

Lemma same_value_zero_add' (a x z : float) :
  is_zero z = true -> same_value a x -> same_value (z + a)%f32 x.
Proof.
  intros Hz [-> | [Ha Hx]].
  - destruct x as [sx|sx| |sx mx ex], z as [sz| | |]; try discriminate.
    + right. split; [now apply F32_add_zeros | reflexivity].
    + now left.
    + now left.
    + now left.
  - right. split; [now apply F32_add_zeros | assumption].
Qed.

Lemma same_value_add_r (a x t : float) :
  same_value a x -> same_value (a + t)%f32 (x + t)%f32.
Proof.
  intros [-> | [Ha Hx]]; [now left|].
  destruct a as [sa| | |]; try discriminate.
  destruct x as [sx| | |]; try discriminate.
  destruct t as [st| | |]; try (now left).
  right. split; apply F32_add_zeros; reflexivity.
Qed.

Lemma same_value_eqb' (a x : float) :
  same_value a x -> is_nan x = false -> F32.eqb a x = true.
Proof.
  intros [-> | [Ha Hx]] Hn.
  - destruct x as [s|s| |s m e]; try discriminate; try reflexivity.
    + now destruct s.
    + unfold F32.eqb, SFeqb, SFcompare.
      rewrite Z.compare_refl, Pos.compare_cont_refl. now destruct s.
  - destruct a, x; try discriminate; reflexivity.
Qed.

Lemma finite32_not_nan (x : float) : finite32 x = true -> is_nan x = false.
Proof. destruct x; try discriminate; reflexivity. Qed.

Lemma finite32_int (n : Z) : - 2 ^ 24 <= n <= 2 ^ 24 -> finite_or_zero (F32.of_Z n) = true.
Proof.
  intros H. pose proof (of_Z_cases n ltac:(lia)) as C.
  destruct (F32.of_Z n); try contradiction; reflexivity.
Qed.

Lemma finite32_one : finite32 (F32.of_Z 1) = true.
Proof. reflexivity. Qed.

Lemma finite32_zero : finite32 (F32.of_Z 0) = true.
Proof. reflexivity. Qed.

Lemma is_zero_mul_zero_l (x : float) :
  finite_or_zero x = true -> is_zero (F32.of_Z 0 * x)%f32 = true.
Proof. destruct x; try discriminate; reflexivity. Qed.

Lemma is_zero_mul_zero_r (x : float) :
  finite_or_zero x = true -> is_zero (x * F32.of_Z 0)%f32 = true.
Proof. destruct x; try discriminate; reflexivity. Qed.

Create HintDb fsum.
#[local] Hint Resolve same_value_refl same_value_add_zero same_value_zero_add'
  same_value_add_r F32_add_zeros is_zero_mul_zero_l is_zero_mul_zero_r
  finite32_finite_or_zero finite32_one finite32_zero
  F32_mul_not_nan F32_add_not_nan finite32_not_nan : fsum.

(** One component of a product: the terms with a factor [1] are simplified,
    the terms with a factor [0] are zeros. *)
Ltac sum_entry :=
  rewrite ?F32_mul_one_l, ?F32_mul_one_r by (assumption || reflexivity);
  apply same_value_eqb'; [auto 8 with fsum | auto 8 with fsum].

(** X1. A matrix whose bottom row is [0,0,0,1] (every affine constructor
    returns one) keeps the w component: for a vector [v] of finite
    components, [mat4_mul_vec4 M v] has a w that is [==] to that of [v],
    whatever the other rows of [M] hold, infinities and NaN included. *)
Theorem affine_bottom_row_keeps_w (M : mat4_t) (v : vec4_t) :
  bottom_row M = row_of_ints 0 0 0 1 -> finite_vec4 v = true ->
  F32.eqb (vec4_w (mat4_mul_vec4 M v)) (vec4_w v) = true.
Proof.
  destruct M as [a b c d], v as [x y z w]. unfold bottom_row, finite_vec4.
  cbn [r3 vec4_x vec4_y vec4_z vec4_w]. intros -> H.
  cbv [mat4_mul_vec4 row_of_ints mat_get mat_row row_get
       r0 r1 r2 r3 c0 c1 c2 c3 vec4_x vec4_y vec4_z vec4_w].
  split_andb. sum_entry.
Qed.

Ltac unfold_mul_vec4 :=
  cbv [mat4_mul_vec4 mat4_make_perspective mat4_make_scale
       mat4_make_translation mat4_make_rotation_x mat4_make_rotation_y
       mat4_make_rotation_z mat4_identity mat4_zero mat_set row_set
       row_of_ints mat_get mat_row row_get
       r0 r1 r2 r3 c0 c1 c2 c3 vec4_x vec4_y vec4_z vec4_w].

Lemma F32_of_double_one : F32.of_float F64.one = F32.of_Z 1.
Proof. reflexivity. Qed.

(** same_value with a zero excluded is equality *)
Lemma same_value_nonzero (a x : float) :
  same_value a x -> is_zero x = false -> a = x.
Proof. intros [E | [_ H]] Hz; [exact E | congruence]. Qed.

(** X8. The perspective matrix stores the depth of the vertex in w: for a
    vector [v] of finite components with a nonzero z, the w of
    [mat4_mul_vec4 P v] is exactly the z of [v], for every perspective
    matrix [P], and [mat4_mul_vec4_project P v] is the product with x, y and
    z divided by that z. *)
Theorem perspective_w_is_depth (tan : double -> double)
    (fov aspect_ratio znear zfar : float) (v : vec4_t) :
  finite_vec4 v = true -> is_zero (vec4_z v) = false ->
  let P := mat4_make_perspective tan fov aspect_ratio znear zfar in
  let r := mat4_mul_vec4 P v in
  vec4_w r = vec4_z v /\
  mat4_mul_vec4_project P v =
  mk_vec4 (vec4_x r / vec4_z v)%f32 (vec4_y r / vec4_z v)%f32
          (vec4_z r / vec4_z v)%f32 (vec4_z v).
Proof.
  intros H Hz P r.
  assert (E : vec4_w r = vec4_z v).
  { subst r P. destruct v as [x y z w]. unfold finite_vec4 in H.
    cbn [vec4_x vec4_y vec4_z vec4_w] in *. split_andb.
    unfold_mul_vec4. rewrite F32_of_double_one.
    rewrite F32_mul_one_l by assumption.
    apply same_value_nonzero; [auto 8 with fsum | assumption]. }
  split; [exact E|].
  unfold mat4_mul_vec4_project. change (mat4_mul_vec4 P v) with r.
  rewrite float_nonzero_spec.
  - rewrite E, Hz. reflexivity.
  - rewrite E. destruct v as [x y z w]. unfold finite_vec4 in H.
    cbn [vec4_x vec4_y vec4_z vec4_w] in *. split_andb.
    destruct z; try discriminate; try reflexivity. assumption.
Qed.

(** X2. [mat4_mul_vec4 (mat4_make_scale sx sy sz) v] is, component by
    component with C's [==], the vector [(sx * x, sy * y, sz * z, w)], for
    finite factors and a vector of finite components: the twelve products
    with the zero entries of the matrix do not show in the result. *)
Theorem scale_of_vector (sx sy sz : float) (v : vec4_t) :
  finite32 sx = true -> finite32 sy = true -> finite32 sz = true ->
  finite_vec4 v = true ->
  vec4_eqb (mat4_mul_vec4 (mat4_make_scale sx sy sz) v)
    (mk_vec4 (sx * vec4_x v)%f32 (sy * vec4_y v)%f32 (sz * vec4_z v)%f32
             (vec4_w v)) = true.
Proof.
  destruct v as [x y z w]. unfold finite_vec4, vec4_eqb.
  cbn [vec4_x vec4_y vec4_z vec4_w]. intros Hx Hy Hz H.
  unfold_mul_vec4. split_andb; sum_entry.
Qed.

(** X3. [mat4_mul_vec4 (mat4_make_translation tx ty tz) v] is [==],
    component by component, to [(x + tx * w, y + ty * w, z + tz * w, w)]
    for finite arguments; for a point, whose w is 1, this is
    [(x + tx, y + ty, z + tz, 1)], each sum rounded once. *)
Theorem translation_of_vector (tx ty tz : float) (v : vec4_t) :
  finite32 tx = true -> finite32 ty = true -> finite32 tz = true ->
  finite_vec4 v = true ->
  let r := mat4_mul_vec4 (mat4_make_translation tx ty tz) v in
  vec4_eqb r
    (mk_vec4 (vec4_x v + tx * vec4_w v)%f32 (vec4_y v + ty * vec4_w v)%f32
             (vec4_z v + tz * vec4_w v)%f32 (vec4_w v)) = true /\
  (vec4_w v = F32.of_Z 1 ->
   vec4_eqb r
     (mk_vec4 (vec4_x v + tx)%f32 (vec4_y v + ty)%f32 (vec4_z v + tz)%f32
              (F32.of_Z 1)) = true).
Proof.
  destruct v as [x y z w]. unfold finite_vec4, vec4_eqb.
  cbn [vec4_x vec4_y vec4_z vec4_w]. intros Hx Hy Hz H. cbv zeta.
  unfold_mul_vec4. split; [|intros ->]; split_andb; sum_entry.
Qed.

(** X4. A rotation leaves the coordinate of its axis and the w component
    alone: for a vector [v] of finite components, the x of
    [mat4_make_rotation_x] applied to [v], the y of [mat4_make_rotation_y],
    the z of [mat4_make_rotation_z] and the three w are [==] to those of
    [v], whatever [cos] and [sin] return for the angle. *)
Theorem rotation_keeps_axis (cos sin : double -> double) (angle : float)
    (v : vec4_t) :
  finite_vec4 v = true ->
  let rx := mat4_mul_vec4 (mat4_make_rotation_x cos sin angle) v in
  let ry := mat4_mul_vec4 (mat4_make_rotation_y cos sin angle) v in
  let rz := mat4_mul_vec4 (mat4_make_rotation_z cos sin angle) v in
  F32.eqb (vec4_x rx) (vec4_x v) = true /\
  F32.eqb (vec4_y ry) (vec4_y v) = true /\
  F32.eqb (vec4_z rz) (vec4_z v) = true /\
  F32.eqb (vec4_w rx) (vec4_w v) = true /\
  F32.eqb (vec4_w ry) (vec4_w v) = true /\
  F32.eqb (vec4_w rz) (vec4_w v) = true.
Proof.
  destruct v as [x y z w]. unfold finite_vec4.
  cbn [vec4_x vec4_y vec4_z vec4_w]. intros H. cbv zeta.
  unfold_mul_vec4. split_andb. repeat split; sum_entry.
Qed.

(** X5. When the cosine of the angle rounds to 1 and its sine is a zero of
    either sign, as for the angles 0 and -0, the three rotation constructors
    return a matrix that is [==] to the identity, entry by entry. *)
Theorem rotation_by_null_angle (cos sin : double -> double) (angle : float) :
  cosf_of cos angle = F32.of_Z 1 -> is_zero (sinf_of sin angle) = true ->
  mat4_eqb (mat4_make_rotation_x cos sin angle) mat4_identity = true /\
  mat4_eqb (mat4_make_rotation_y cos sin angle) mat4_identity = true /\
  mat4_eqb (mat4_make_rotation_z cos sin angle) mat4_identity = true.
Proof.
  intros Hc Hs.
  unfold mat4_make_rotation_x, mat4_make_rotation_y, mat4_make_rotation_z.
  rewrite Hc. destruct (sinf_of sin angle) as [[|]| | |]; try discriminate;
    repeat split; reflexivity.
Qed.

Lemma F32_add_comm (x y : float) : (x + y)%f32 = (y + x)%f32.
Proof.
  destruct x as [sx|sx| |sx mx ex], y as [sy|sy| |sy my ey];
    try reflexivity; try (destruct sx, sy; reflexivity).
  unfold F32.add, SFadd. rewrite (Z.min_comm ey ex). f_equal. apply Z.add_comm.
Qed.

Ltac unfold_mul_mat4 :=
  cbv [mat4_mul_mat4 mat4_mul_mat4_from fold_left all_idx mat_set row_set
       mat4_zero mat4_identity mat4_make_scale mat4_make_translation
       row_of_ints mat_get mat_row row_get
       r0 r1 r2 r3 c0 c1 c2 c3].

(** X6. The product of two translation matrices is the translation by the
    sums: [mat4_mul_mat4] of the translations by [(ax,ay,az)] and
    [(bx,by,bz)] is [==], entry by entry, to the translation by
    [(ax + bx, ay + by, az + bz)], for finite arguments. *)
Theorem translations_compose (ax ay az bx b_y bz : float) :
  finite32 ax = true -> finite32 ay = true -> finite32 az = true ->
  finite32 bx = true -> finite32 b_y = true -> finite32 bz = true ->
  mat4_eqb
    (mat4_mul_mat4 (mat4_make_translation ax ay az)
                   (mat4_make_translation bx b_y bz))
    (mat4_make_translation (ax + bx)%f32 (ay + b_y)%f32 (az + bz)%f32) = true.
Proof.
  intros Hax Hay Haz Hbx Hby Hbz.
  rewrite (F32_add_comm ax bx), (F32_add_comm ay b_y), (F32_add_comm az bz).
  unfold mat4_eqb, row_eqb. unfold_mul_mat4. split_andb; sum_entry.
Qed.

(** X7. The product of two scale matrices is the scale by the products:
    [mat4_mul_mat4] of the scales by [(ax,ay,az)] and [(bx,by,bz)] is [==],
    entry by entry, to the scale by [(ax * bx, ay * by, az * bz)], for finite
    arguments. *)
Theorem scales_compose (ax ay az bx b_y bz : float) :
  finite32 ax = true -> finite32 ay = true -> finite32 az = true ->
  finite32 bx = true -> finite32 b_y = true -> finite32 bz = true ->
  mat4_eqb
    (mat4_mul_mat4 (mat4_make_scale ax ay az) (mat4_make_scale bx b_y bz))
    (mat4_make_scale (ax * bx)%f32 (ay * b_y)%f32 (az * bz)%f32) = true.
Proof.
  intros Hax Hay Haz Hbx Hby Hbz.
  unfold mat4_eqb, row_eqb. unfold_mul_mat4. split_andb; sum_entry.
Qed.

Lemma div_eucl_exact (a b : Z) :
  0 < b -> Z.div_eucl (a * b) b = (a, 0).
Proof.
  intros Hb.
  assert (E : Z.div_eucl (a * b) b = ((a * b) / b, (a * b) mod b)).
  { unfold Z.div, Z.modulo. now destruct (Z.div_eucl (a * b) b). }
  rewrite E, Z.div_mul, Z.mod_mul by lia. reflexivity.
Qed.

(** A mantissa shifted left by one bit is rounded back to itself. *)
Lemma binary_round_aux_shifted_1 (s : bool) (m : positive) (e : Z) :
  F32.valid (S754_finite s m e) = true -> Zpos (digits2_pos m) = 24 ->
  binary_round_aux 24 128 s (Zpos m~0) (e - 1) loc_Exact = S754_finite s m e.
Proof.
  intros H Hd. destruct (valid32_bounds s m e H) as [Hc He].
  unfold binary_round_aux.
  assert (S1 : shr_fexp 24 128 (Zpos m~0) (e - 1) loc_Exact =
               (Build_shr_record (Zpos m) false false, e)).
  { unfold shr_fexp, shr. cbn [Zdigits2 shr_record_of_loc digits2_pos].
    rewrite Pos2Z.inj_succ. unfold fexp, emin.
    replace (Z.max (Z.succ (Zpos (digits2_pos m)) + (e - 1) - 24) (3 - 128 - 24)
             - (e - 1)) with 1 by lia.
    cbn [iter_pos shr_1]. f_equal. lia. }
  rewrite S1. cbn [shr_m loc_of_shr_record shr_r shr_s round_nearest_even].
  rewrite shr_fexp_exact by (cbn [Zdigits2]; unfold fexp, emin; lia).
  cbn [shr_m]. now replace (e <=? 128 - 24) with true
    by (symmetry; apply Z.leb_le; lia).
Qed.

Lemma F32_div_one (x : float) :
  F32.valid x = true -> (x / F32.of_Z 1)%f32 = x.
Proof.
  rewrite F32_one_eq. destruct x as [s|s| |s m e]; try reflexivity.
  - now destruct s.
  - now destruct s.
  - intros H. destruct (valid32_bounds s m e H) as [Hc He].
    unfold F32.div, SFdiv, SFdiv_core_binary, F32.prec, F32.emax.
    change (Zdigits2 (Zpos 8388608)) with 24.
    change (Zdigits2 (Zpos m)) with (Zpos (digits2_pos m)).
    rewrite xorb_false_r.
    unfold fexp, emin.
    destruct (Z.eq_dec (Zpos (digits2_pos m)) 24) as [D|D];
      [destruct (Z.eq_dec e (-149)) as [E|E]|].
    + (* 24 digits at the least exponent: no extra bit *)
      replace (Z.min (Z.max (Zpos (digits2_pos m) + e - (24 + -23) - 24) (3 - 128 - 24))
                 (e - -23)) with e by lia.
      replace (e - -23 - e) with 23 by lia.
      rewrite Z.shiftl_mul_pow2 by lia. change (2 ^ 23) with 8388608.
      rewrite (div_eucl_exact (Zpos m) (b := 8388608)) by lia.
      change (new_location 8388608 0) with loc_Exact.
      rewrite binary_round_aux_exact by (unfold fexp, emin; lia).
      now replace (e <=? 128 - 24) with true by (symmetry; apply Z.leb_le; lia).
    + replace (Z.min (Z.max (Zpos (digits2_pos m) + e - (24 + -23) - 24) (3 - 128 - 24))
                 (e - -23)) with (e - 1) by lia.
      replace (e - -23 - (e - 1)) with 24 by lia.
      rewrite Z.shiftl_mul_pow2 by lia.
      replace (Zpos m * 2 ^ 24) with (Zpos m~0 * 8388608) by lia.
      rewrite (div_eucl_exact (Zpos m~0) (b := 8388608)) by lia.
      change (new_location 8388608 0) with loc_Exact.
      now apply binary_round_aux_shifted_1.
    + replace (Z.min (Z.max (Zpos (digits2_pos m) + e - (24 + -23) - 24) (3 - 128 - 24))
                 (e - -23)) with e by lia.
      replace (e - -23 - e) with 23 by lia.
      rewrite Z.shiftl_mul_pow2 by lia. change (2 ^ 23) with 8388608.
      rewrite (div_eucl_exact (Zpos m) (b := 8388608)) by lia.
      change (new_location 8388608 0) with loc_Exact.
      rewrite binary_round_aux_exact by (unfold fexp, emin; lia).
      now replace (e <=? 128 - 24) with true by (symmetry; apply Z.leb_le; lia).
Qed.

(** X9. When the w of [mat4_mul_vec4 P v] is 1, the perspective divide of
    [mat4_mul_vec4_project] changes nothing: the division of a [float] by
    1 is exact, and the function returns the product itself. *)
Theorem project_with_unit_w (P : mat4_t) (v : vec4_t) :
  let r := mat4_mul_vec4 P v in
  vec4_w r = F32.of_Z 1 ->
  F32.valid (vec4_x r) = true -> F32.valid (vec4_y r) = true ->
  F32.valid (vec4_z r) = true ->
  mat4_mul_vec4_project P v = r.
Proof.
  intros r Hw Hx Hy Hz. unfold mat4_mul_vec4_project.
  change (mat4_mul_vec4 P v) with r. rewrite Hw.
  change (float_nonzero (F32.of_Z 1)) with true. cbv iota.
  cbn [vec4_x vec4_y vec4_z vec4_w].
  rewrite !F32_div_one by assumption.
  destruct r as [x y z w]. cbn [vec4_w] in Hw. now rewrite Hw.
Qed.

(** X19. The product of two affine matrices is affine: when the bottom rows
    of [a] and [b] are [0,0,0,1] and the entries of [b] are finite, the
    bottom row of [mat4_mul_mat4 a b] is [==] to [0,0,0,1], whatever the
    other rows of [a] hold. *)
Theorem affine_product_is_affine (a b : mat4_t) :
  bottom_row a = row_of_ints 0 0 0 1 -> bottom_row b = row_of_ints 0 0 0 1 ->
  finite_mat4 b = true ->
  row_eqb (bottom_row (mat4_mul_mat4 a b)) (row_of_ints 0 0 0 1) = true.
Proof.
  destruct a as [a0 a1 a2 a3],
    b as [[b00 b01 b02 b03] [b10 b11 b12 b13] [b20 b21 b22 b23] b3].
  unfold bottom_row, finite_mat4, finite_row.
  cbn [r0 r1 r2 r3 c0 c1 c2 c3]. intros -> -> H.
  unfold row_eqb. unfold_mul_mat4. split_andb; sum_entry.
Qed.

(** ** The sort of the vertices and the scan loops *)

(** X10. The three conditional swaps that open both fill functions sort
    the vertices: the result is in ascending order of y, it is a permutation
    of the three vertices, each with the attributes it came with, and
    vertices that are already in ascending order stay as they are. *)
Theorem sort_by_y_sorts (A : Type)
    (y0 : Z) (a0 : A) (y1 : Z) (a1 : A) (y2 : Z) (a2 : A) :
  let '(v0, v1, v2) := sort_by_y y0 a0 y1 a1 y2 a2 in
  fst v0 <= fst v1 <= fst v2 /\
  Permutation [(y0, a0); (y1, a1); (y2, a2)] [v0; v1; v2] /\
  (y0 <= y1 <= y2 -> (v0, v1, v2) = ((y0, a0), (y1, a1), (y2, a2))).
Proof.
  unfold sort_by_y.
  destruct (Z.gtb_spec y0 y1) as [E1|E1];
    [destruct (Z.gtb_spec y0 y2) as [E2|E2];
       [destruct (Z.gtb_spec y1 y2) as [E3|E3]
       |destruct (Z.gtb_spec y1 y0) as [E3|E3]]
    |destruct (Z.gtb_spec y1 y2) as [E2|E2];
       [destruct (Z.gtb_spec y0 y2) as [E3|E3]
       |destruct (Z.gtb_spec y0 y1) as [E3|E3]]];
    cbn [fst]; try (exfalso; lia);
    (split; [lia | split; [| intros; try reflexivity; exfalso; lia]]).
  - apply Permutation_rev with (l := [(y0, a0); (y1, a1); (y2, a2)]).
  - eapply perm_trans; [apply perm_swap|]. apply perm_skip, perm_swap.
  - apply perm_swap.
  - eapply perm_trans; [apply perm_skip, perm_swap|]. apply perm_swap.
  - apply perm_skip, perm_swap.
  - apply Permutation_refl.
Qed.

Lemma sort_by_y_swap (A : Type)
    (y0 : Z) (a0 : A) (y1 : Z) (a1 : A) (y2 : Z) (a2 : A) :
  y0 <> y1 -> y1 <> y2 -> y0 <> y2 ->
  sort_by_y y1 a1 y0 a0 y2 a2 = sort_by_y y0 a0 y1 a1 y2 a2 /\
  sort_by_y y0 a0 y2 a2 y1 a1 = sort_by_y y0 a0 y1 a1 y2 a2.
Proof.
  intros N1 N2 N3. unfold sort_by_y.
  split;
    repeat match goal with
           | |- context [?a >? ?b] => destruct (Z.gtb_spec a b)
           end; try reflexivity; exfalso; lia.
Qed.


Section Order.
Variable display : Type.
Variable get_zbuffer_at : display -> Z -> Z -> float.
Variable set_zbuffer_at : display -> Z -> Z -> float -> display.
Variable draw_pixel : display -> Z -> Z -> Z -> display.
Variable upng_t : Type.
Variable upng_get_width : upng_t -> Z.
Variable upng_get_height : upng_t -> Z.
Variable upng_get_buffer : upng_t -> Z -> Z.

Local Abbreviation filled_triangle :=
  (draw_filled_triangle get_zbuffer_at set_zbuffer_at draw_pixel).
Local Abbreviation textured_triangle :=
  (draw_textured_triangle get_zbuffer_at set_zbuffer_at draw_pixel
     upng_get_width upng_get_height upng_get_buffer).

(** X11. For vertices with three distinct y, the order in which the caller
    passes them does not matter: exchanging the first two, or the last two,
    vertices (each with its z, w, u and v) gives the same outcome, the same
    final buffers and the same calls, for [draw_filled_triangle] and for
    [draw_textured_triangle]. *)
Theorem vertex_order_irrelevant
    (x0 y0 : Z) (z0 w0 u0 v0 : float) (x1 y1 : Z) (z1 w1 u1 v1 : float)
    (x2 y2 : Z) (z2 w2 u2 v2 : float) (color : Z) (texture : upng_t)
    (w : world display) :
  y0 <> y1 -> y1 <> y2 -> y0 <> y2 ->
  filled_triangle x1 y1 z1 w1 x0 y0 z0 w0 x2 y2 z2 w2 color w =
  filled_triangle x0 y0 z0 w0 x1 y1 z1 w1 x2 y2 z2 w2 color w /\
  filled_triangle x0 y0 z0 w0 x2 y2 z2 w2 x1 y1 z1 w1 color w =
  filled_triangle x0 y0 z0 w0 x1 y1 z1 w1 x2 y2 z2 w2 color w /\
  textured_triangle x1 y1 z1 w1 u1 v1 x0 y0 z0 w0 u0 v0 x2 y2 z2 w2 u2 v2
    texture w =
  textured_triangle x0 y0 z0 w0 u0 v0 x1 y1 z1 w1 u1 v1 x2 y2 z2 w2 u2 v2
    texture w /\
  textured_triangle x0 y0 z0 w0 u0 v0 x2 y2 z2 w2 u2 v2 x1 y1 z1 w1 u1 v1
    texture w =
  textured_triangle x0 y0 z0 w0 u0 v0 x1 y1 z1 w1 u1 v1 x2 y2 z2 w2 u2 v2
    texture w.
Proof.
  intros N1 N2 N3. unfold draw_filled_triangle, draw_textured_triangle.
  destruct (sort_by_y_swap (x0, z0, w0) (x1, z1, w1) (x2, z2, w2)
              N1 N2 N3) as [E1 E2].
  destruct (sort_by_y_swap (x0, z0, w0, u0, v0) (x1, z1, w1, u1, v1)
              (x2, z2, w2, u2, v2) N1 N2 N3) as [E3 E4].
  rewrite E1, E2, E3, E4. repeat split.
Qed.

End Order.

(** *** The fill functions as a depth test run on a list of pixels *)




Section Filling.
Variable display : Type.
Variable get_zbuffer_at : display -> Z -> Z -> float.
Variable set_zbuffer_at : display -> Z -> Z -> float -> display.
Variable draw_pixel : display -> Z -> Z -> Z -> display.
Variable upng_t : Type.
Variable upng_get_width : upng_t -> Z.
Variable upng_get_height : upng_t -> Z.
Variable upng_get_buffer : upng_t -> Z -> Z.

Local Abbreviation guarded :=
  (guarded_pixel get_zbuffer_at set_zbuffer_at draw_pixel).
Local Abbreviation tested :=
  (tested_pixel get_zbuffer_at set_zbuffer_at draw_pixel).

Lemma run_pixels_app
    (pure : Z -> Z -> world display -> world display)
    (l1 l2 : list (Z * Z)) (w : world display) :
  run_pixels pure (l1 ++ l2) w = run_pixels pure l2 (run_pixels pure l1 w).
Proof. unfold run_pixels. apply fold_left_app. Qed.

Lemma fill_parts_ext
    (pixel pixel' : Z -> Z -> world display -> outcome (world display))
    (x0 y0 x1 y1 x2 y2 : Z) (w : world display) :
  (forall x y w, pixel x y w = pixel' x y w) ->
  fill_parts pixel x0 y0 x1 y1 x2 y2 w = fill_parts pixel' x0 y0 x1 y1 x2 y2 w.
Proof.
  intros E. rewrite !fill_parts_steps.
  rewrite (@visit_all_ext _ pixel pixel' _ _ E).
  destruct (visit_all pixel' _ w) as [w1|why w1]; cbn [and_then];
    [|reflexivity].
  destruct (part_overflows y0 y1); cbn [and_then]; [reflexivity|].
  now rewrite (@visit_all_ext _ pixel pixel' _ _ E).
Qed.

(** The two parts return exactly when no counter overflows and no pixel
    faults, and the world is then that of the depth tests. *)
Lemma fill_parts_guarded (F : Z -> Z -> bool) (D : Z -> Z -> float)
    (C : Z -> Z -> Z) (x0 y0 x1 y1 x2 y2 : Z) (w : world display) :
  part_overflows y0 y1 = false -> part_overflows y1 y2 = false ->
  (forall p, In p (fill_pixels x0 y0 x1 y1 x2 y2) ->
             F (fst p) (snd p) = false) ->
  fill_parts (guarded F D C) x0 y0 x1 y1 x2 y2 w =
  returns (run_pixels (tested D C) (fill_pixels x0 y0 x1 y1 x2 y2) w).
Proof.
  intros O1 O2 H. rewrite fill_parts_steps, O1, O2.
  unfold fill_pixels in *.
  rewrite visit_all_guarded
    by (intros p Hp; apply H, in_or_app; now left).
  cbn [and_then].
  rewrite visit_all_guarded
    by (intros p Hp; apply H, in_or_app; now right).
  cbn [and_then]. now rewrite run_pixels_app.
Qed.

Lemma fill_parts_guarded_inv (F : Z -> Z -> bool) (D : Z -> Z -> float)
    (C : Z -> Z -> Z) (x0 y0 x1 y1 x2 y2 : Z) (w w' : world display) :
  fill_parts (guarded F D C) x0 y0 x1 y1 x2 y2 w = returns w' ->
  part_overflows y0 y1 = false /\ part_overflows y1 y2 = false /\
  (forall p, In p (fill_pixels x0 y0 x1 y1 x2 y2) ->
             F (fst p) (snd p) = false) /\
  w' = run_pixels (tested D C) (fill_pixels x0 y0 x1 y1 x2 y2) w.
Proof.
  rewrite fill_parts_steps.
  destruct (visit_all (guarded F D C) (upper_pixels x0 y0 x1 y1 x2 y2) w)
    as [w1|why w1] eqn:V1; cbn [and_then]; [|discriminate].
  destruct (part_overflows y0 y1); cbn [and_then]; [discriminate|].
  destruct (visit_all (guarded F D C) (lower_pixels x0 y0 x1 y1 x2 y2) w1)
    as [w2|why w2] eqn:V2; cbn [and_then]; [|discriminate].
  destruct (part_overflows y1 y2); [discriminate|].
  intros E. injection E as <-.
  destruct (visit_all_guarded_inv _ _ _ _ _ _ _ _ V1) as [F1 ->].
  destruct (visit_all_guarded_inv _ _ _ _ _ _ _ _ V2) as [F2 ->].
  repeat split; try reflexivity.
  - unfold fill_pixels. intros p Hp. apply in_app_or in Hp.
    destruct Hp; [now apply F1 | now apply F2].
  - unfold fill_pixels. now rewrite run_pixels_app.
Qed.

(** [draw_filled_triangle] and [draw_textured_triangle] in that form, for
    vertices that the sort has put in order. *)
Lemma filled_guarded (color : Z) (point_a point_b point_c : vec4_t)
    (x0 y0 x1 y1 x2 y2 : Z) (w : world display) :
  fill_parts
    (fun x y w =>
       returns
         (draw_triangle_pixel get_zbuffer_at set_zbuffer_at draw_pixel
            x y color point_a point_b point_c w))
    x0 y0 x1 y1 x2 y2 w =
  fill_parts
    (guarded (fun _ _ => false) (spec_depth_metric point_a point_b point_c)
       (fun _ _ => color))
    x0 y0 x1 y1 x2 y2 w.
Proof.
  apply fill_parts_ext. intros x y w1.
  now rewrite draw_triangle_pixel_tested.
Qed.

Lemma textured_guarded (texture : upng_t) (point_a point_b point_c : vec4_t)
    (a_uv b_uv c_uv : tex2_t) (x0 y0 x1 y1 x2 y2 : Z) (w : world display) :
  fill_parts
    (fun x y =>
       draw_texel get_zbuffer_at set_zbuffer_at draw_pixel
         upng_get_width upng_get_height upng_get_buffer
         x y texture point_a point_b point_c a_uv b_uv c_uv)
    x0 y0 x1 y1 x2 y2 w =
  fill_parts
    (guarded
       (texel_stops upng_get_width upng_get_height texture
          point_a point_b point_c a_uv b_uv c_uv)
       (spec_depth_metric point_a point_b point_c)
       (texel_colour upng_get_width upng_get_height upng_get_buffer texture
          point_a point_b point_c a_uv b_uv c_uv))
    x0 y0 x1 y1 x2 y2 w.
Proof.
  apply fill_parts_ext. intros x y w1. apply draw_texel_guarded.
Qed.


End Filling.

(** *** The calls of a fill function *)


Lemma ltb_irrefl (x : float) : (x <? x)%f32 = false.
Proof.
  destruct x as [s|s| |s m e]; try reflexivity; try (now destruct s).
  unfold F32.ltb, SFltb, SFcompare.
  rewrite Z.compare_refl, Pos.compare_cont_refl. now destruct s.
Qed.

Section Calls.
Variable display : Type.
Variable get_zbuffer_at : display -> Z -> Z -> float.
Variable set_zbuffer_at : display -> Z -> Z -> float -> display.
Variable draw_pixel : display -> Z -> Z -> Z -> display.
Variable upng_t : Type.
Variable upng_get_width : upng_t -> Z.
Variable upng_get_height : upng_t -> Z.
Variable upng_get_buffer : upng_t -> Z -> Z.

Local Abbreviation tested :=
  (tested_pixel get_zbuffer_at set_zbuffer_at draw_pixel).






End Calls.

(** *** A triangle drawn twice *)

Section Idempotence.
Variable display : Type.
Variable get_zbuffer_at : display -> Z -> Z -> float.
Variable set_zbuffer_at : display -> Z -> Z -> float -> display.
Variable draw_pixel : display -> Z -> Z -> Z -> display.
Variable upng_t : Type.
Variable upng_get_width : upng_t -> Z.
Variable upng_get_height : upng_t -> Z.
Variable upng_get_buffer : upng_t -> Z -> Z.
Hypothesis laws : depth_buffer_laws get_zbuffer_at set_zbuffer_at draw_pixel.
Variable D : Z -> Z -> float.
Variable C : Z -> Z -> Z.

Local Abbreviation tested :=
  (tested_pixel get_zbuffer_at set_zbuffer_at draw_pixel D C).
Local Abbreviation settled_at := (settled get_zbuffer_at D).

Lemma tested_settles (x y : Z) (w : world display) :
  settled_at (tested x y w) (x, y).
Proof.
  destruct laws as (L1 & L2 & L3). unfold settled, tested_pixel. cbn [fst snd].
  destruct (D x y <? get_zbuffer_at (buffers w) x y)%f32 eqn:E.
  - cbn [buffers do_set_zbuffer_at do_draw_pixel]. rewrite L1. apply ltb_irrefl.
  - exact E.
Qed.

Lemma tested_keeps_settled (x y : Z) (w : world display) (q : Z * Z) :
  settled_at w q -> settled_at (tested x y w) q.
Proof.
  intros H. destruct q as [qx qy].
  destruct (Z.eq_dec qx x) as [->|Nx];
    [destruct (Z.eq_dec qy y) as [->|Ny]|].
  - apply tested_settles.
  - destruct laws as (L1 & L2 & L3). unfold settled, tested_pixel in *.
    cbn [fst snd] in *.
    destruct (D x y <? get_zbuffer_at (buffers w) x y)%f32; [|exact H].
    cbn [buffers do_set_zbuffer_at do_draw_pixel].
    rewrite L2 by congruence. now rewrite L3.
  - destruct laws as (L1 & L2 & L3). unfold settled, tested_pixel in *.
    cbn [fst snd] in *.
    destruct (D x y <? get_zbuffer_at (buffers w) x y)%f32; [|exact H].
    cbn [buffers do_set_zbuffer_at do_draw_pixel].
    rewrite L2 by congruence. now rewrite L3.
Qed.

Lemma run_keeps_settled (ps : list (Z * Z)) (w : world display) (q : Z * Z) :
  settled_at w q -> settled_at (run_pixels tested ps w) q.
Proof.
  revert w. induction ps as [|p ps IH]; intros w H; [exact H|].
  cbn [run_pixels fold_left]. apply IH. now apply tested_keeps_settled.
Qed.

Lemma run_settles (ps : list (Z * Z)) (w : world display) :
  Forall (settled_at (run_pixels tested ps w)) ps.
Proof.
  revert w. induction ps as [|p ps IH]; intros w; constructor.
  - cbn [run_pixels fold_left].
    apply (run_keeps_settled ps). destruct p as [x y]. apply tested_settles.
  - apply IH.
Qed.

Lemma run_settled (ps : list (Z * Z)) (w : world display) :
  Forall (settled_at w) ps -> run_pixels tested ps w = w.
Proof.
  induction 1 as [|p ps Hp _ IH]; [reflexivity|].
  cbn [run_pixels fold_left]. unfold tested_pixel at 2.
  unfold settled in Hp. rewrite Hp. exact IH.
Qed.

Lemma fill_parts_redrawn (F : Z -> Z -> bool) (x0 y0 x1 y1 x2 y2 : Z)
    (w w' : world display) :
  fill_parts
    (guarded_pixel get_zbuffer_at set_zbuffer_at draw_pixel F D C)
    x0 y0 x1 y1 x2 y2 w = returns w' ->
  fill_parts
    (guarded_pixel get_zbuffer_at set_zbuffer_at draw_pixel F D C)
    x0 y0 x1 y1 x2 y2 w' = returns w'.
Proof.
  intros E. apply fill_parts_guarded_inv in E.
  destruct E as (O1 & O2 & HF & ->).
  rewrite fill_parts_guarded by assumption. f_equal.
  apply run_settled, run_settles.
Qed.

End Idempotence.

Section Redraw.
Variable display : Type.
Variable get_zbuffer_at : display -> Z -> Z -> float.
Variable set_zbuffer_at : display -> Z -> Z -> float -> display.
Variable draw_pixel : display -> Z -> Z -> Z -> display.
Variable upng_t : Type.
Variable upng_get_width : upng_t -> Z.
Variable upng_get_height : upng_t -> Z.
Variable upng_get_buffer : upng_t -> Z -> Z.

(** X13. On a depth buffer that holds one value per pixel, drawing the same
    triangle a second time changes nothing, neither the buffers nor the
    calls made: when a fill function has returned, a second call with the
    same arguments returns with the world as the first one left it, since
    after the first pass the depth test, a strict [<], fails at every pixel
    of the triangle.  This holds for both fill functions and for all
    arguments, NaN depths included. *)
Theorem redraw_changes_nothing
    (x0 y0 : Z) (z0 w0 u0 v0 : float) (x1 y1 : Z) (z1 w1 u1 v1 : float)
    (x2 y2 : Z) (z2 w2 u2 v2 : float) (color : Z) (texture : upng_t)
    (w : world display) :
  depth_buffer_laws get_zbuffer_at set_zbuffer_at draw_pixel ->
  let filled :=
    draw_filled_triangle get_zbuffer_at set_zbuffer_at draw_pixel
      x0 y0 z0 w0 x1 y1 z1 w1 x2 y2 z2 w2 color in
  let textured :=
    draw_textured_triangle get_zbuffer_at set_zbuffer_at draw_pixel
      upng_get_width upng_get_height upng_get_buffer
      x0 y0 z0 w0 u0 v0 x1 y1 z1 w1 u1 v1 x2 y2 z2 w2 u2 v2 texture in
  (forall w', filled w = returns w' -> filled w' = returns w') /\
  (forall w', textured w = returns w' -> textured w' = returns w').
Proof.
  intros laws filled textured. subst filled textured. split; intros w'.
  - unfold draw_filled_triangle.
    destruct (sort_by_y y0 (x0, z0, w0) y1 (x1, z1, w1) y2 (x2, z2, w2))
      as [[[Y0 [[X0 Z0] W0]] [Y1 [[X1 Z1] W1]]] [Y2 [[X2 Z2] W2]]].
    rewrite !filled_guarded. now apply fill_parts_redrawn.
  - unfold draw_textured_triangle.
    destruct (sort_by_y y0 (x0, z0, w0, u0, v0) y1 (x1, z1, w1, u1, v1)
                y2 (x2, z2, w2, u2, v2))
      as [[[Y0 [[[[X0 Z0] W0] U0] V0]] [Y1 [[[[X1 Z1] W1] U1] V1]]]
          [Y2 [[[[X2 Z2] W2] U2] V2]]].
    rewrite !textured_guarded. now apply fill_parts_redrawn.
Qed.

End Redraw.

(** ** The depth buffer *)

Section Depth.
Variable display : Type.
Variable get_zbuffer_at : display -> Z -> Z -> float.
Variable set_zbuffer_at : display -> Z -> Z -> float -> display.
Variable draw_pixel : display -> Z -> Z -> Z -> display.
Hypothesis laws : depth_buffer_laws get_zbuffer_at set_zbuffer_at draw_pixel.
Variable D : Z -> Z -> float.
Variable C : Z -> Z -> Z.

Local Abbreviation tested :=
  (tested_pixel get_zbuffer_at set_zbuffer_at draw_pixel D C).





End Depth.

Section DepthOfTriangles.
Variable display : Type.
Variable get_zbuffer_at : display -> Z -> Z -> float.
Variable set_zbuffer_at : display -> Z -> Z -> float -> display.
Variable draw_pixel : display -> Z -> Z -> Z -> display.
Variable upng_t : Type.
Variable upng_get_width : upng_t -> Z.
Variable upng_get_height : upng_t -> Z.
Variable upng_get_buffer : upng_t -> Z -> Z.


End DepthOfTriangles.

(** ** The texel that is read *)

Lemma rem_bounds (n size : Z) :
  0 <= n -> 0 < size -> 0 <= Z.rem n size < size.
Proof.
  intros Hn Hs. rewrite Z.rem_mod_nonneg by lia. apply Z.mod_pos_bound. lia.
Qed.

Section TexelBounds.
Variable display : Type.
Variable get_zbuffer_at : display -> Z -> Z -> float.
Variable set_zbuffer_at : display -> Z -> Z -> float -> display.
Variable draw_pixel : display -> Z -> Z -> Z -> display.
Variable upng_t : Type.
Variable upng_get_width : upng_t -> Z.
Variable upng_get_height : upng_t -> Z.
Variable upng_get_buffer : upng_t -> Z -> Z.

(** X14. [draw_texel] reads the texture buffer within its bounds: for a
    texture of positive width and height whose number of texels is an
    [int], and interpolated coordinates whose products with the width and
    the height are finite with an absolute value whose integer part is at
    most [INT_MAX], [draw_texel] returns, and if it draws, the colour that
    it passes to [draw_pixel] is read at an index
    [texture_width * tex_y + tex_x] that is at least 0 and less than
    [texture_width * texture_height]. *)
Theorem texel_index_in_bounds
    (x y : Z) (texture : upng_t) (point_a point_b point_c : vec4_t)
    (a_uv b_uv c_uv : tex2_t) (w : world display) (nx ny : Z) :
  let u := attribute_at point_a point_b point_c x y
             (tex2_u a_uv) (tex2_u b_uv) (tex2_u c_uv) in
  let v := attribute_at point_a point_b point_c x y
             (tex2_v a_uv) (tex2_v b_uv) (tex2_v c_uv) in
  let texture_width := upng_get_width texture in
  let texture_height := upng_get_height texture in
  0 < texture_width -> 0 < texture_height ->
  texture_width * texture_height <= Int.max_signed ->
  floor_of_float (SFabs (u * F32.of_Z texture_width)%f32) = Some nx ->
  nx <= Int.max_signed ->
  floor_of_float (SFabs (v * F32.of_Z texture_height)%f32) = Some ny ->
  ny <= Int.max_signed ->
  exists w',
    draw_texel get_zbuffer_at set_zbuffer_at draw_pixel
      upng_get_width upng_get_height upng_get_buffer
      x y texture point_a point_b point_c a_uv b_uv c_uv w = returns w' /\
    (calls w' = calls w \/
     exists i depth,
       0 <= i < texture_width * texture_height /\
       calls w' =
       calls w ++ [call_draw_pixel x y (upng_get_buffer texture i);
                   call_set_zbuffer_at x y depth]).
Proof.
  intros u v tw th Hw Hh Hwh Ex Hnx Ey Hny.
  rewrite draw_texel_guarded.
  unfold guarded_pixel, texel_stops, texel_faults, texel_colour, tested_pixel.
  fold u v tw th. rewrite !texel_coord_faults.
  rewrite (@texel_coord_floor_abs u tw nx) by (lia || assumption).
  rewrite (@texel_coord_floor_abs v th ny) by (lia || assumption).
  cbn [orb]. eexists. split; [reflexivity|].
  destruct (_ <? _)%f32; [right | now left].
  pose proof (rem_bounds (floor_abs_nonneg _ Ex) Hw) as Bx.
  pose proof (rem_bounds (floor_abs_nonneg _ Ey) Hh) as By.
  set (tx := Z.rem nx tw) in *. set (ty := Z.rem ny th) in *.
  exists (tw * ty + tx). eexists.
  assert (B : 0 <= tw * ty + tx < tw * th) by nia.
  split; [exact B|].
  cbn [calls do_set_zbuffer_at do_draw_pixel]. rewrite <- app_assoc.
  cbn [app]. unfold Int.add, Int.mul.
  rewrite (@wrap_small (tw * ty))
    by (unfold Int.in_range, Int.min_signed, Int.max_signed in *; nia).
  rewrite (@wrap_small (tw * ty + tx))
    by (unfold Int.in_range, Int.min_signed, Int.max_signed in *; lia).
  reflexivity.
Qed.

End TexelBounds.

(** ** The growable arrays *)

Section ArrayFacts.
Variable allocates : Z -> bool.

(** X15. When [array_hold(array, count, item_size)] returns, it returns an
    array, never [NULL], and [array_length] of the result is [array_length]
    of the argument plus [count] (in [int] arithmetic), for a new array
    ([NULL] argument) as for one that exists. *)
Theorem array_hold_length (array array' : array_ptr) (count item_size : Z) :
  Int.in_range count ->
  array_hold allocates array count item_size = Some array' ->
  array' <> None /\
  array_length array' = Int.add (array_length array) count.
Proof.
  intros Hc. unfold array_hold, get_data_pointer.
  destruct array as [h|]; cbn [array_length].
  - destruct (Int.add (size h) count <=? capacity h).
    + intros E. injection E as <-. split; [discriminate | reflexivity].
    + destruct (allocates _); [|discriminate].
      intros E. injection E as <-. split; [discriminate | reflexivity].
  - destruct (allocates _); [|discriminate].
    intros E. injection E as <-. split; [discriminate|].
    cbn [array_length size]. unfold Int.add. now rewrite wrap_small.
Qed.

(** X16. On an array whose size is within its capacity, and as long as the
    new size and twice the capacity are in the range of [int], [array_hold]
    keeps the size within the capacity and never lowers the capacity; the
    capacity changes only when the items do not fit, and it is then the
    greater of twice the old capacity and the size that is required. *)
Theorem array_hold_growth (h h' : ArrayHeader) (count item_size : Z) :
  sound_header h -> 0 <= count -> size h + count <= Int.max_signed ->
  array_hold allocates (Some h) count item_size = Some (Some h') ->
  size h' = size h + count /\
  size h' <= capacity h' /\
  capacity h <= capacity h' /\
  (capacity h' <> capacity h ->
   capacity h < size h + count /\
   capacity h' = Z.max (2 * capacity h) (size h + count)).
Proof.
  intros (Hs & Hc & Hd) Hcount Hsum.
  assert (R1 : Int.in_range (size h + count))
    by (unfold Int.in_range, Int.min_signed, Int.max_signed in *; lia).
  assert (R2 : Int.in_range (capacity h * 2))
    by (unfold Int.in_range, Int.min_signed, Int.max_signed in *; lia).
  unfold array_hold, get_data_pointer, Int.add, Int.mul.
  rewrite (wrap_small R1), (wrap_small R2).
  destruct (Z.leb_spec (size h + count) (capacity h)) as [Hfit|Hgrow].
  - intros E. injection E as <-. cbn [size capacity]. repeat split; try lia.
  - destruct (allocates _); [|discriminate].
    destruct (Z.gtb_spec (size h + count) (capacity h * 2)) as [Hbig|Hsmall];
      intros E; injection E as <-; cbn [size capacity]; repeat split; lia.
Qed.

(** X17. [array_hold] does not check what [malloc] and [realloc] return: it
    writes the header through a null pointer exactly when it has to
    allocate, for a [NULL] array or for items that do not fit in the
    capacity, and the allocation of the size it computes fails.  When the
    items fit it cannot fail, whatever the allocator does. *)
Theorem array_hold_fault (array : array_ptr) (count item_size : Z) :
  array_hold allocates array count item_size = None <->
  match array with
  | None =>
      allocates (size_t_of_int
                   (raw_size item_size (if count >? 4 then count else 4))) = false
  | Some h =>
      capacity h < Int.add (size h) count /\
      allocates (size_t_of_int
                   (raw_size item_size
                      (if Int.add (size h) count >? Int.mul (capacity h) 2
                       then Int.add (size h) count
                       else Int.mul (capacity h) 2))) = false
  end.
Proof.
  unfold array_hold, get_data_pointer. destruct array as [h|].
  - destruct (Z.leb_spec (Int.add (size h) count) (capacity h)) as [Hfit|Hgrow].
    + split; [discriminate | intros [H _]; lia].
    + destruct (allocates _); split; try discriminate; try tauto.
      intros [_ H]. discriminate.
  - destruct (allocates _); split; try discriminate; tauto.
Qed.

Lemma array_hold_one_more (h : ArrayHeader) (s item_size : Z) :
  (forall n, allocates n = true) ->
  1 <= s < 2 ^ 28 -> grown_by_doubling s h ->
  exists h', array_hold allocates (Some h) 1 item_size = Some (Some h') /\
             grown_by_doubling (s + 1) h'.
Proof.
  intros Hal Hs (Hsize & Hcap & k & Hk & Hpow).
  assert (P28 : 2 ^ 28 = 268435456) by reflexivity.
  assert (R1 : Int.in_range (size h + 1))
    by (unfold Int.in_range, Int.min_signed, Int.max_signed; lia).
  assert (R2 : Int.in_range (capacity h * 2))
    by (unfold Int.in_range, Int.min_signed, Int.max_signed; lia).
  unfold array_hold, get_data_pointer, Int.add, Int.mul.
  rewrite (wrap_small R1), (wrap_small R2), Hal.
  destruct (Z.leb_spec (size h + 1) (capacity h)) as [Hfit|Hgrow].
  - eexists. split; [reflexivity|]. unfold grown_by_doubling. cbn [size capacity].
    repeat split; try lia. exists k. auto.
  - destruct (Z.gtb_spec (size h + 1) (capacity h * 2)) as [Hbig|Hsmall];
      [lia|].
    eexists. split; [reflexivity|]. unfold grown_by_doubling. cbn [size capacity].
    repeat split; try lia. exists (k + 1). split; [lia|].
    rewrite Z.pow_add_r by lia. lia.
Qed.

Lemma array_hold_one_by_one_from (n : nat) (h : ArrayHeader) (s item_size : Z) :
  (forall n, allocates n = true) ->
  1 <= s -> s + Z.of_nat n <= 2 ^ 28 -> grown_by_doubling s h ->
  exists h', array_hold_one_by_one allocates n (Some h) item_size = Some (Some h') /\
             grown_by_doubling (s + Z.of_nat n) h'.
Proof.
  intros Hal. revert h s. induction n as [|n IH]; intros h s Hs Hn G.
  - exists h. split; [reflexivity|]. now rewrite Z.add_0_r.
  - cbn [array_hold_one_by_one].
    destruct (array_hold_one_more (h := h) (s := s) item_size Hal) as (h1 & E1 & G1);
      [lia | exact G |].
    rewrite E1.
    destruct (IH h1 (s + 1)) as (h2 & E2 & G2); [lia | lia | exact G1 |].
    exists h2. split; [exact E2|].
    now replace (s + Z.of_nat (S n)) with (s + 1 + Z.of_nat n) by lia.
Qed.

(** X18. Appending [n] items one by one to a [NULL] array, with [n] calls
    [array = array_hold(array, 1, item_size)], gives, when no allocation
    fails and [n] is at most 2^28, an array of length [n] whose capacity is
    4 doubled some number of times, at least [n] and at most the greater of
    4 and [2 * n - 2]. *)
Theorem array_hold_one_by_one_capacity (n : nat) (item_size : Z) :
  (forall n, allocates n = true) ->
  (1 <= n)%nat -> Z.of_nat n <= 2 ^ 28 ->
  exists h,
    array_hold_one_by_one allocates n None item_size = Some (Some h) /\
    size h = Z.of_nat n /\
    Z.of_nat n <= capacity h <= Z.max 4 (2 * Z.of_nat n - 2) /\
    exists k, 0 <= k /\ capacity h = 4 * 2 ^ k.
Proof.
  intros Hal Hn Hmax. destruct n as [|n]; [lia|].
  cbn [array_hold_one_by_one]. unfold array_hold at 1. rewrite Hal.
  cbn [get_data_pointer]. change (1 >? 4) with false. cbv iota.
  destruct (array_hold_one_by_one_from n (h := mk_header 4 1) (s := 1) item_size Hal)
    as (h & E & G).
  - lia.
  - lia.
  - unfold grown_by_doubling. cbn [size capacity]. repeat split; try lia.
    exists 0. split; [lia | reflexivity].
  - exists h. split; [exact E|].
    replace (Z.of_nat (S n)) with (1 + Z.of_nat n) by lia. exact G.
Qed.

End ArrayFacts.

(** ** Examples *)

(** The translation by (5,6,7) applied to the point (1,2,3). *)
Lemma affine_bottom_row_keeps_w_witness :
  F32.eqb
    (vec4_w (mat4_mul_vec4
               (mat4_make_translation (F32.of_Z 5) (F32.of_Z 6) (F32.of_Z 7))
               (vec4_of_ints 1 2 3 1)))
    (F32.of_Z 1) = true.
Proof.
  exact (@affine_bottom_row_keeps_w
           (mat4_make_translation (F32.of_Z 5) (F32.of_Z 6) (F32.of_Z 7))
           (vec4_of_ints 1 2 3 1) eq_refl eq_refl).
Defined.

Lemma scale_of_vector_witness :
  vec4_eqb
    (mat4_mul_vec4 (mat4_make_scale (F32.of_Z 2) (F32.of_Z 3) (F32.of_Z 4))
       (vec4_of_ints 1 2 3 1))
    (vec4_of_ints 2 6 12 1) = true.
Proof.
  exact (@scale_of_vector (F32.of_Z 2) (F32.of_Z 3) (F32.of_Z 4)
           (vec4_of_ints 1 2 3 1) eq_refl eq_refl eq_refl eq_refl).
Defined.

Lemma translation_of_vector_witness :
  vec4_eqb
    (mat4_mul_vec4
       (mat4_make_translation (F32.of_Z 5) (F32.of_Z 6) (F32.of_Z 7))
       (vec4_of_ints 1 2 3 1))
    (vec4_of_ints 6 8 10 1) = true.
Proof.
  exact (proj2 (@translation_of_vector (F32.of_Z 5) (F32.of_Z 6) (F32.of_Z 7)
                  (vec4_of_ints 1 2 3 1) eq_refl eq_refl eq_refl eq_refl)
           eq_refl).
Defined.

(** The rotation about z by the angle 0 applied to (1,2,3,1). *)
Lemma rotation_keeps_axis_witness :
  F32.eqb
    (vec4_z (mat4_mul_vec4
               (mat4_make_rotation_z cos_at_0 sin_at_0 (F32.of_Z 0))
               (vec4_of_ints 1 2 3 1)))
    (F32.of_Z 3) = true.
Proof.
  exact (proj1 (proj2 (proj2
    (@rotation_keeps_axis cos_at_0 sin_at_0 (F32.of_Z 0)
       (vec4_of_ints 1 2 3 1) eq_refl)))).
Defined.

Lemma rotation_by_null_angle_witness :
  mat4_eqb (mat4_make_rotation_x cos_at_0 sin_at_0 (F32.of_Z 0))
    mat4_identity = true.
Proof.
  exact (proj1 (@rotation_by_null_angle cos_at_0 sin_at_0 (F32.of_Z 0)
                  eq_refl eq_refl)).
Defined.

Lemma translations_compose_witness :
  mat4_eqb
    (mat4_mul_mat4
       (mat4_make_translation (F32.of_Z 1) (F32.of_Z 2) (F32.of_Z 3))
       (mat4_make_translation (F32.of_Z 4) (F32.of_Z 5) (F32.of_Z 6)))
    (mat4_make_translation (F32.of_Z 5) (F32.of_Z 7) (F32.of_Z 9)) = true.
Proof.
  exact (@translations_compose
           (F32.of_Z 1) (F32.of_Z 2) (F32.of_Z 3)
           (F32.of_Z 4) (F32.of_Z 5) (F32.of_Z 6)
           eq_refl eq_refl eq_refl eq_refl eq_refl eq_refl).
Defined.

Lemma scales_compose_witness :
  mat4_eqb
    (mat4_mul_mat4
       (mat4_make_scale (F32.of_Z 1) (F32.of_Z 2) (F32.of_Z 3))
       (mat4_make_scale (F32.of_Z 4) (F32.of_Z 5) (F32.of_Z 6)))
    (mat4_make_scale (F32.of_Z 4) (F32.of_Z 10) (F32.of_Z 18)) = true.
Proof.
  exact (@scales_compose
           (F32.of_Z 1) (F32.of_Z 2) (F32.of_Z 3)
           (F32.of_Z 4) (F32.of_Z 5) (F32.of_Z 6)
           eq_refl eq_refl eq_refl eq_refl eq_refl eq_refl).
Defined.

(** A perspective matrix for the fov 5/4, the aspect ratio 4/3 and the
    planes 1/10 and 100, applied to the point (1,2,3). *)
Lemma perspective_w_is_depth_witness :
  vec4_w (mat4_mul_vec4
            (mat4_make_perspective tan_at_0625 (ratio 5 4) (ratio 4 3)
               (ratio 1 10) (F32.of_Z 100))
            (vec4_of_ints 1 2 3 1)) = F32.of_Z 3.
Proof.
  exact (proj1 (@perspective_w_is_depth tan_at_0625 (ratio 5 4) (ratio 4 3)
                  (ratio 1 10) (F32.of_Z 100) (vec4_of_ints 1 2 3 1)
                  eq_refl eq_refl)).
Defined.

Lemma project_with_unit_w_witness :
  mat4_mul_vec4_project
    (mat4_make_translation (F32.of_Z 5) (F32.of_Z 6) (F32.of_Z 7))
    (vec4_of_ints 1 2 3 1) =
  mat4_mul_vec4
    (mat4_make_translation (F32.of_Z 5) (F32.of_Z 6) (F32.of_Z 7))
    (vec4_of_ints 1 2 3 1).
Proof.
  exact (@project_with_unit_w
           (mat4_make_translation (F32.of_Z 5) (F32.of_Z 6) (F32.of_Z 7))
           (vec4_of_ints 1 2 3 1) eq_refl eq_refl eq_refl eq_refl).
Defined.

(** The product of a scale and a translation. *)
Lemma affine_product_is_affine_witness :
  row_eqb
    (bottom_row
       (mat4_mul_mat4
          (mat4_make_scale (F32.of_Z 2) (F32.of_Z 3) (F32.of_Z 4))
          (mat4_make_translation (F32.of_Z 5) (F32.of_Z 6) (F32.of_Z 7))))
    (row_of_ints 0 0 0 1) = true.
Proof.
  exact (@affine_product_is_affine
           (mat4_make_scale (F32.of_Z 2) (F32.of_Z 3) (F32.of_Z 4))
           (mat4_make_translation (F32.of_Z 5) (F32.of_Z 6) (F32.of_Z 7))
           eq_refl eq_refl eq_refl).
Defined.

(** The triangle (1,4), (4,2), (0,0) with its first two vertices
    exchanged. *)
Lemma vertex_order_irrelevant_witness :
  draw_filled_triangle Sample.get_zbuffer_at Sample.set_zbuffer_at
    Sample.draw_pixel
    4 2 (F32.of_Z 8) (F32.of_Z 3) 1 4 (F32.of_Z 7) (F32.of_Z 2)
    0 0 (F32.of_Z 9) (F32.of_Z 4) 255 Sample.start =
  draw_filled_triangle Sample.get_zbuffer_at Sample.set_zbuffer_at
    Sample.draw_pixel
    1 4 (F32.of_Z 7) (F32.of_Z 2) 4 2 (F32.of_Z 8) (F32.of_Z 3)
    0 0 (F32.of_Z 9) (F32.of_Z 4) 255 Sample.start.
Proof.
  exact (proj1
    (@vertex_order_irrelevant
       Sample.display Sample.get_zbuffer_at Sample.set_zbuffer_at
       Sample.draw_pixel Sample.texture Sample.width Sample.height
       Sample.buffer
       1 4 (F32.of_Z 7) (F32.of_Z 2) (F32.of_Z 0) (F32.of_Z 0)
       4 2 (F32.of_Z 8) (F32.of_Z 3) (F32.of_Z 0) (F32.of_Z 0)
       0 0 (F32.of_Z 9) (F32.of_Z 4) (F32.of_Z 0) (F32.of_Z 0)
       255 (Sample.mk_texture 2 2) Sample.start
       ltac:(discriminate) ltac:(discriminate) ltac:(discriminate))).
Defined.


(** The sample display obeys the laws of a depth buffer. *)
Lemma sample_depth_buffer_laws :
  depth_buffer_laws Sample.get_zbuffer_at Sample.set_zbuffer_at
    Sample.draw_pixel.
Proof.
  unfold depth_buffer_laws, Sample.get_zbuffer_at, Sample.set_zbuffer_at,
    Sample.draw_pixel.
  repeat split.
  - intros d x y v. cbn [Sample.zbuffer Sample.find_depth].
    now rewrite !Z.eqb_refl.
  - intros d x y v x' y' N. cbn [Sample.zbuffer Sample.find_depth].
    destruct (Z.eqb_spec x' x) as [->|]; [|reflexivity].
    destruct (Z.eqb_spec y' y) as [->|]; [|reflexivity].
    congruence.
Qed.

(** The triangle (1,4), (4,2), (0,0) drawn twice on the cleared display. *)
Lemma redraw_changes_nothing_witness :
  let filled :=
    draw_filled_triangle Sample.get_zbuffer_at Sample.set_zbuffer_at
      Sample.draw_pixel
      1 4 (F32.of_Z 7) (F32.of_Z 2) 4 2 (F32.of_Z 8) (F32.of_Z 3)
      0 0 (F32.of_Z 9) (F32.of_Z 4) 255 in
  let once := state_of (filled Sample.start) in
  filled Sample.start = returns once /\ filled once = returns once.
Proof.
  refine (let first := _ in
          conj first
            (proj1
               (@redraw_changes_nothing
                  Sample.display Sample.get_zbuffer_at Sample.set_zbuffer_at
                  Sample.draw_pixel Sample.texture Sample.width Sample.height
                  Sample.buffer
                  1 4 (F32.of_Z 7) (F32.of_Z 2) (F32.of_Z 0) (F32.of_Z 0)
                  4 2 (F32.of_Z 8) (F32.of_Z 3) (F32.of_Z 0) (F32.of_Z 0)
                  0 0 (F32.of_Z 9) (F32.of_Z 4) (F32.of_Z 0) (F32.of_Z 0)
                  255 (Sample.mk_texture 2 2) Sample.start
                  sample_depth_buffer_laws) _ first)).
  vm_compute. reflexivity.
Defined.


(** With u = v = 7/4 at the three vertices and a texture of 2 x 2 texels,
    the index read at the pixel (0,0) is less than 4. *)
Lemma texel_index_in_bounds_witness :
  exists w',
    sample_texel 0 0 (Sample.mk_texture 2 2) (uv 7 4) (uv 7 4) (uv 7 4) =
      returns w' /\
    (calls w' = calls Sample.start \/
     exists i depth,
       0 <= i < 2 * 2 /\
       calls w' =
       calls Sample.start ++
       [call_draw_pixel 0 0 (Sample.buffer (Sample.mk_texture 2 2) i);
        call_set_zbuffer_at 0 0 depth]).
Proof.
  exact (@texel_index_in_bounds
           Sample.display Sample.get_zbuffer_at Sample.set_zbuffer_at
           Sample.draw_pixel
           Sample.texture Sample.width Sample.height Sample.buffer
           0 0 (Sample.mk_texture 2 2)
           (vec4_of_ints 0 0 0 1) (vec4_of_ints 4 0 0 1) (vec4_of_ints 0 4 0 1)
           (uv 7 4) (uv 7 4) (uv 7 4) Sample.start 3 3
           eq_refl eq_refl ltac:(vm_compute; discriminate)
           eq_refl ltac:(vm_compute; discriminate)
           eq_refl ltac:(vm_compute; discriminate)).
Defined.

(** A new array of three items of 12 bytes. *)
Lemma array_hold_length_witness :
  array_hold (fun _ => true) None 3 12 = Some (Some (mk_header 4 3)) /\
  array_length (Some (mk_header 4 3)) = Int.add (array_length None) 3.
Proof.
  split; [reflexivity|].
  exact (proj2 (@array_hold_length (fun _ => true) None
                  (Some (mk_header 4 3)) 3 12
                  ltac:(vm_compute; split; discriminate) eq_refl)).
Defined.

(** A full array of capacity 4 that receives a fifth item. *)
Lemma array_hold_growth_witness :
  array_hold (fun _ => true) (Some (mk_header 4 4)) 1 12 =
    Some (Some (mk_header 8 5)) /\
  capacity (mk_header 8 5) = Z.max (2 * capacity (mk_header 4 4))
                               (size (mk_header 4 4) + 1).
Proof.
  split; [reflexivity|].
  refine (proj2 (proj2 (proj2 (proj2
    (@array_hold_growth (fun _ => true) (mk_header 4 4) (mk_header 8 5) 1 12
       _ _ _ eq_refl))) _)).
  - unfold sound_header, Int.max_signed. cbn [size capacity]. lia.
  - lia.
  - unfold Int.max_signed. cbn [size capacity]. lia.
  - cbn [capacity]. lia.
Defined.

(** Five items appended to a [NULL] array: the capacity is 8. *)
Lemma array_hold_one_by_one_capacity_witness :
  exists h,
    array_hold_one_by_one (fun _ => true) 5 None 12 = Some (Some h) /\
    size h = Z.of_nat 5 /\
    Z.of_nat 5 <= capacity h <= Z.max 4 (2 * Z.of_nat 5 - 2) /\
    exists k, 0 <= k /\ capacity h = 4 * 2 ^ k.
Proof.
  exact (@array_hold_one_by_one_capacity (fun _ => true) 5 12
           (fun _ => eq_refl) ltac:(lia) ltac:(vm_compute; discriminate)).
Defined.
